(** * The Ollama-to-OpenRouter proxy: route handlers of [server.go]

    A shallow embedding of the HTTP route handlers registered by
    [Server.setupRoutes] and of [Server.loadModelFilter], with the properties
    the specification states about them.

    Go strings are byte strings and are modelled by [string]; the filter
    [map[string]struct{}] is a [gset string]; the response writer, the log of
    backend calls and the backend stream handle are threaded through the
    handlers as an explicit state. *)

From Stdlib Require Import ZArith NArith Ascii.
From stdpp Require Import base option list strings gmap sets.

Local Open Scope Z_scope.
Local Set Warnings "-register-all".

(** ** Errors and results of fallible calls *)

(** Go's [(value, err)] pairs: [Err msg] carries [err.Error()]. *)
Inductive result (A : Type) : Type :=
  | Ok (a : A)
  | Err (msg : string).
Arguments Ok {A} a.
Arguments Err {A} msg.

(** ** JSON values written to the wire

    [gin.H] and [map[string]interface{}] literals become [JObj] with the
    fields of the literal. *)
Inductive JSON : Type :=
  | JStr (s : string)
  | JInt (z : Z)
  | JBool (b : bool)
  | JArr (items : list JSON)
  | JObj (fields : list (string * JSON)).

Fixpoint assoc (k : string) (fields : list (string * JSON)) : option JSON :=
  match fields with
  | [] => None
  | (k', v) :: rest => if decide (k' = k) then Some v else assoc k rest
  end.

(** [field k j]: the value under key [k] when [j] is an object. *)
Definition field (k : string) (j : JSON) : option JSON :=
  match j with
  | JObj fields => assoc k fields
  | _ => None
  end.

(** ** Go [int] arithmetic (64 bits, two's complement, wrapping) *)

Definition wrap64 (z : Z) : Z :=
  (z + 2 ^ 63) mod 2 ^ 64 - 2 ^ 63.

Definition mul64 (a b : Z) : Z := wrap64 (a * b).

(** ** The model filter: [loadModelFilter] *)

Module Filter.

Definition byte (n : nat) : ascii := ascii_of_nat n.

Fixpoint bytes (l : list nat) : string :=
  match l with
  | [] => EmptyString
  | n :: r => String (byte n) (bytes r)
  end.

(** The code points of [unicode.IsSpace], each in its UTF-8 encoding:
    U+0009..U+000D, U+0020, U+0085, U+00A0, U+1680, U+2000..U+200A,
    U+2028, U+2029, U+202F, U+205F, U+3000. *)
Definition spaces : list string :=
  map bytes
    [ [9%nat]; [10%nat]; [11%nat]; [12%nat]; [13%nat]; [32%nat];
      [194; 133]%nat; [194; 160]%nat; [225; 154; 128]%nat;
      [226; 128; 128]%nat; [226; 128; 129]%nat; [226; 128; 130]%nat;
      [226; 128; 131]%nat; [226; 128; 132]%nat; [226; 128; 133]%nat;
      [226; 128; 134]%nat; [226; 128; 135]%nat; [226; 128; 136]%nat;
      [226; 128; 137]%nat; [226; 128; 138]%nat; [226; 128; 168]%nat;
      [226; 128; 169]%nat; [226; 128; 175]%nat; [226; 129; 159]%nat;
      [227; 128; 128]%nat ].

(** Width in bytes of the white-space rune at the front of [s], [0] when
    [s] does not start with one. *)
Definition space_width (table : list string) (s : string) : nat :=
  match List.find (fun sp => String.prefix sp s) table with
  | Some sp => String.length sp
  | None => 0%nat
  end.

(** [strings.TrimLeftFunc(s, unicode.IsSpace)]; [skip] counts the bytes of
    the current white-space rune still to drop. *)
Fixpoint trim_front (table : list string) (skip : nat) (s : string)
  {struct s} : string :=
  match s with
  | EmptyString => EmptyString
  | String c s' =>
      match skip with
      | S k => trim_front table k s'
      | O =>
          match space_width table s with
          | O => s
          | S k => trim_front table k s'
          end
      end
  end.

(** [strings.TrimSpace]: white space is removed at the front, then at the
    back (the back is the front of the reversed string, read against the
    reversed encodings). *)
Definition TrimSpace (s : string) : string :=
  String.rev
    (trim_front (map String.rev spaces) 0
       (String.rev (trim_front spaces 0 s))).

(** [bufio.ScanLines] without the carriage-return handling: the text is cut
    at each line feed; what follows the last line feed is a line of its own
    when it is not empty. [cur] is the current line, reversed. *)
Fixpoint raw_lines (cur : string) (s : string) : list string :=
  match s with
  | EmptyString =>
      match cur with
      | EmptyString => []
      | _ => [String.rev cur]
      end
  | String c s' =>
      if decide (c = byte 10) then String.rev cur :: raw_lines EmptyString s'
      else raw_lines (String c cur) s'
  end.

(** [dropCR]: one trailing carriage return is removed. *)
Definition dropCR (l : string) : string :=
  match String.rev l with
  | String c r => if decide (c = byte 13) then String.rev r else l
  | EmptyString => l
  end.

(** [bufio.MaxScanTokenSize]: a line that does not fit the scanner's buffer
    stops the scan with [bufio.ErrTooLong]. *)
Definition MaxScanTokenSize : N := 65536.

Definition too_long (l : string) : bool :=
  (MaxScanTokenSize <=? N.of_nat (String.length l))%N.

(** The scanner over a file content: the tokens [scanner.Text()] takes in
    turn, and [scanner.Err()] once [scanner.Scan()] has answered false. *)
Fixpoint scan (ls : list string) : list string * option string :=
  match ls with
  | [] => ([], None)
  | l :: rest =>
      if too_long l then ([], Some "bufio.Scanner: token too long")
      else let '(toks, err) := scan rest in (dropCR l :: toks, err)
  end.

Definition Scanner (content : string) : list string * option string :=
  scan (raw_lines EmptyString content).

(** The body of the [for scanner.Scan()] loop. *)
Definition add_line (filter : gset string) (text : string) : gset string :=
  let line := TrimSpace text in
  if decide (line = "") then filter else {[ line ]} ∪ filter.

(** [loadModelFilter]; [file] is the content found at [path] and read to
    its end, [None] when [os.Open] fails because there is no such file.
    The other failures of the operating system, an [os.Open] that fails
    for another reason and a read that fails, are those of [OnDisk]
    below. *)
Definition loadModelFilter (file : option string) : result (gset string) :=
  match file with
  | None => Err "open: no such file or directory"
  | Some content =>
      let '(toks, err) := Scanner content in
      let filter := foldl add_line ∅ toks in
      match err with
      | Some e => Err e
      | None => Ok filter
      end
  end.

End Filter.

(** ** Types of the go-openai client library used by the handlers *)

Module openai.

Record ChatCompletionMessage := {
  Role : string;
  Content : string;
}.

Record ChatCompletionChoice := {
  Message : ChatCompletionMessage;
  FinishReason : string;
}.

Record Usage := {
  PromptTokens : Z;
  CompletionTokens : Z;
  TotalTokens : Z;
}.

Record ChatCompletionResponse := {
  Choices : list ChatCompletionChoice;
  ResponseUsage : Usage;
}.

(** [ChatCompletionStreamChoice]: [Delta.Content] and [FinishReason]. *)
Record ChatCompletionStreamChoice := {
  DeltaContent : string;
  StreamFinishReason : string;
}.

Record ChatCompletionStreamResponse := {
  StreamChoices : list ChatCompletionStreamChoice;
}.

(** How a [ChatCompletionStream] ends: [Recv] answers [io.EOF], or an
    error that is not [io.EOF]. *)
Inductive StreamEnd :=
  | EOF
  | Failure (msg : string).

(** A [ChatCompletionStream]: the responses [Recv] still has to deliver,
    in order, and what it answers once they are used up. *)
Record ChatCompletionStream := {
  pending : list ChatCompletionStreamResponse;
  ending : StreamEnd;
}.

End openai.
Import openai.

(** ** The backend provider *)

(** Modelled from the spec: the type of a catalog entry is declared outside
    the files at hand; the spec gives it the fields
    [{name, model, modifiedAt, details}], which the catalog route reads as
    [m.Name], [m.Model], [m.ModifiedAt] and [m.Details]. *)
Record ModelInfo := {
  m_Name : string;
  m_Model : string;
  m_ModifiedAt : string;
  m_Details : JSON;
}.

(** Modelled from the spec: the provider is implemented outside the files at
    hand. It is taken as a parameter: the five operations the handlers call,
    with the signatures the spec lists for the backend client. *)
Record OpenrouterProvider := {
  GetModels : result (list ModelInfo);
  GetModelDetails : string -> result JSON;
  GetFullModelName : string -> result string;
  Chat : list ChatCompletionMessage -> string -> result ChatCompletionResponse;
  ChatStream : list ChatCompletionMessage -> string -> result ChatCompletionStream;
}.

(** The fields of [Server] the handlers read. *)
Record Server := {
  provider : OpenrouterProvider;
  filterMap : gset string;
}.

(** ** The state a handler acts on *)

(** A provider method invoked by a handler. *)
Inductive Call :=
  | CallGetModels
  | CallGetModelDetails (name : string)
  | CallGetFullModelName (alias : string)
  | CallChat (messages : list ChatCompletionMessage) (model : string)
  | CallChatStream (messages : list ChatCompletionMessage) (model : string).

(** One write to the response body: [c.JSON] writes the object alone,
    [fmt.Fprintf(w, "%s\n", ...)] writes it followed by a line feed. *)
Record Written := {
  payload : JSON;
  newline : bool;
}.

Record World := {
  status : option Z;            (* the status line, once sent *)
  header : gmap string string;  (* c.Writer.Header() *)
  body : list Written;          (* body writes, oldest first *)
  flushed : nat;                (* how many body writes Flush has pushed out *)
  calls : list Call;            (* provider calls, oldest first *)
  handles : nat;                (* backend streams opened and not yet closed *)
  ticks : nat;                  (* readings of time.Now() so far *)
}.

Definition pristine : World :=
  {| status := None; header := ∅; body := []; flushed := 0; calls := [];
     handles := 0; ticks := 0 |}.

(** How a handler invocation ends. *)
Inductive Exit :=
  | Returned
  | Panicked (msg : string).

(** What [c.BindJSON] / [c.ShouldBindJSON] make of the request body: an error
    (the body is not well-formed JSON, or does not fit the target), or the
    decoded value. *)
Inductive Bind (A : Type) :=
  | BindErr (msg : string)
  | BindOk (a : A).
Arguments BindErr {A} msg.
Arguments BindOk {A} a.

(** The request struct of the chat route. *)
Record ChatRequest := {
  req_Model : string;
  req_Messages : list ChatCompletionMessage;
  req_Stream : option bool;
}.

Definition StatusOK : Z := 200.
Definition StatusBadRequest : Z := 400.
Definition StatusNotFound : Z := 404.
Definition StatusInternalServerError : Z := 500.

(** ** Operations on the response writer and on the backend *)

(** The status line goes out with the first body write and cannot be
    changed afterwards. *)
Definition commit (code : Z) (w : World) : option Z :=
  match status w with
  | None => Some code
  | Some sent => Some sent
  end.

Definition header_default (k v : string) (h : gmap string string)
  : gmap string string :=
  match h !! k with
  | None => <[k := v]> h
  | Some _ => h
  end.

(** [c.JSON(code, obj)]. *)
Definition c_JSON (code : Z) (obj : JSON) (w : World) : World :=
  {| status := commit code w;
     header := header_default "Content-Type" "application/json; charset=utf-8" (header w);
     body := body w ++ [ {| payload := obj; newline := false |} ];
     flushed := flushed w; calls := calls w; handles := handles w;
     ticks := ticks w |}.

(** [c.Writer.Header().Set(k, v)]. *)
Definition Header_Set (k v : string) (w : World) : World :=
  {| status := status w; header := <[k := v]> (header w); body := body w;
     flushed := flushed w; calls := calls w; handles := handles w;
     ticks := ticks w |}.

(** [fmt.Fprintf(w, "%s\n", string(jsonData))]: a first write sends
    status 200. *)
Definition Fprintf_line (obj : JSON) (w : World) : World :=
  {| status := commit StatusOK w; header := header w;
     body := body w ++ [ {| payload := obj; newline := true |} ];
     flushed := flushed w; calls := calls w; handles := handles w;
     ticks := ticks w |}.

(** [flusher.Flush()]. *)
Definition Flush (w : World) : World :=
  {| status := commit StatusOK w; header := header w; body := body w;
     flushed := length (body w); calls := calls w; handles := handles w;
     ticks := ticks w |}.

(** A provider method is entered. *)
Definition call (c : Call) (w : World) : World :=
  {| status := status w; header := header w; body := body w;
     flushed := flushed w; calls := calls w ++ [c]; handles := handles w;
     ticks := ticks w |}.

(** [ChatStream] has handed out a stream; [stream.Close()] gives it back. *)
Definition opened (w : World) : World :=
  {| status := status w; header := header w; body := body w;
     flushed := flushed w; calls := calls w; handles := S (handles w);
     ticks := ticks w |}.

Definition Close (w : World) : World :=
  {| status := status w; header := header w; body := body w;
     flushed := flushed w; calls := calls w; handles := pred (handles w);
     ticks := ticks w |}.

Definition tick (w : World) : World :=
  {| status := status w; header := header w; body := body w;
     flushed := flushed w; calls := calls w; handles := handles w;
     ticks := S (ticks w) |}.

(** [gin.H{"error": msg}]. *)
Definition H_error (msg : string) : JSON := JObj [("error", JStr msg)].

(** ** The route handlers of [setupRoutes] *)

Section Routes.

(** [clock n] is what [time.Now().Format(time.RFC3339)] yields at the
    [n]-th reading of the clock. *)
Variable clock : nat -> string.
Variable s : Server.

Definition now (w : World) : string * World := (clock (ticks w), tick w).

(** *** [GET /api/tags] *)

Definition tags_entry (m : ModelInfo) : JSON :=
  JObj [ ("name", JStr (m_Name m));
         ("model", JStr (m_Model m));
         ("modified_at", JStr (m_ModifiedAt m));
         ("size", JInt 270898672);
         ("digest", JStr "9077fe9d2ae1a4a41a868836b56b8163731a8fe16621397028c2c76f838c6907");
         ("details", m_Details m) ].

(** One turn of [for _, m := range models]. *)
Definition tags_step (filter : gset string) (newModels : list JSON)
    (m : ModelInfo) : list JSON :=
  if bool_decide (0 < size filter)%nat
     && negb (bool_decide (m_Model m ∈ filter))
  then newModels (* continue *)
  else newModels ++ [tags_entry m].

Definition tags_listing (filter : gset string) (models : list ModelInfo)
  : list JSON :=
  foldl (tags_step filter) [] models.

Definition tags_handler (w : World) : Exit * World :=
  let w := call CallGetModels w in
  match GetModels (provider s) with
  | Err e => (Returned, c_JSON StatusInternalServerError (H_error e) w)
  | Ok models =>
      let filter := filterMap s in
      let newModels := tags_listing filter models in
      (Returned, c_JSON StatusOK (JObj [("models", JArr newModels)]) w)
  end.

(** *** [POST /api/show] *)

Definition show_handler (bound : Bind (gmap string string)) (w : World)
  : Exit * World :=
  match bound with
  | BindErr _ =>
      (Returned, c_JSON StatusBadRequest (H_error "Invalid JSON payload") w)
  | BindOk request =>
      let modelName := default "" (request !! "name") in
      if decide (modelName = "") then
        (Returned, c_JSON StatusBadRequest (H_error "Model name is required") w)
      else
        let w := call (CallGetModelDetails modelName) w in
        match GetModelDetails (provider s) modelName with
        | Err e => (Returned, c_JSON StatusInternalServerError (H_error e) w)
        | Ok details => (Returned, c_JSON StatusOK details w)
        end
  end.

(** *** [POST /api/chat] *)

Definition message (content : string) : JSON :=
  JObj [ ("role", JStr "assistant"); ("content", JStr content) ].

(** [ollamaResponse] of the non-streaming branch. *)
Definition ollamaResponse (fullModelName created content finishReason : string)
    (usage : Usage) : JSON :=
  JObj [ ("model", JStr fullModelName);
         ("created_at", JStr created);
         ("message", message content);
         ("done", JBool true);
         ("finish_reason", JStr finishReason);
         ("total_duration", JInt (mul64 (TotalTokens usage) 10));
         ("load_duration", JInt 0);
         ("prompt_eval_count", JInt (PromptTokens usage));
         ("eval_count", JInt (CompletionTokens usage));
         ("eval_duration", JInt (mul64 (CompletionTokens usage) 10)) ].

(** [responseJSON] of an intermediate chunk. *)
Definition responseJSON (fullModelName created content : string) : JSON :=
  JObj [ ("model", JStr fullModelName);
         ("created_at", JStr created);
         ("message", message content);
         ("done", JBool false) ].

(** [finalResponse] of the streaming branch. *)
Definition finalResponse (fullModelName created lastFinishReason : string)
  : JSON :=
  JObj [ ("model", JStr fullModelName);
         ("created_at", JStr created);
         ("message", message "");
         ("done", JBool true);
         ("finish_reason", JStr lastFinishReason);
         ("total_duration", JInt 0);
         ("load_duration", JInt 0);
         ("prompt_eval_count", JInt 0);
         ("eval_count", JInt 0);
         ("eval_duration", JInt 0) ].

Definition errorMsg (e : string) : JSON :=
  JObj [ ("error", JStr ("Stream error: " +:+ e)) ].

Definition index_panic : string :=
  "runtime error: index out of range [0] with length 0".

(** The non-streaming branch, entered when [!streamRequested]. *)
Definition chat_once (request : ChatRequest) (w : World) : Exit * World :=
  let w := call (CallGetFullModelName (req_Model request)) w in
  match GetFullModelName (provider s) (req_Model request) with
  | Err e => (Returned, c_JSON StatusNotFound (H_error e) w)
  | Ok fullModelName =>
      let w := call (CallChat (req_Messages request) fullModelName) w in
      match Chat (provider s) (req_Messages request) fullModelName with
      | Err e => (Returned, c_JSON StatusInternalServerError (H_error e) w)
      | Ok response =>
          if decide (length (Choices response) = 0%nat) then
            (Returned,
             c_JSON StatusInternalServerError (H_error "No response from model") w)
          else
            match Choices response !! 0%nat with
            | None => (Panicked index_panic, w)
            | Some choice =>
                let content :=
                  if decide (Content (Message choice) = "") then ""
                  else Content (Message choice) in
                let finishReason :=
                  if decide (FinishReason choice = "") then "stop"
                  else FinishReason choice in
                let '(created, w) := now w in
                (Returned,
                 c_JSON StatusOK
                   (ollamaResponse fullModelName created content finishReason
                      (ResponseUsage response)) w)
            end
      end
  end.

(** How the receive loop is left. *)
Inductive LoopExit :=
  | Break (lastFinishReason : string)
  | Return
  | Panic (msg : string).

(** The [for { response, err := stream.Recv() ... }] loop. [rest] are the
    responses [Recv] still delivers, so that each turn of the loop takes the
    head of [rest]; when there is none left [Recv] answers with the stream's
    [ending]: [io.EOF] leaves the loop by [break], any other error by
    [return] after the error line. In the map literal [responseJSON] the
    clock is read before [response.Choices[0]] is. *)
Fixpoint recv_loop (fullModelName : string) (ending : StreamEnd)
    (rest : list ChatCompletionStreamResponse) (lastFinishReason : string)
    (w : World) : LoopExit * World :=
  match rest with
  | [] =>
      match ending with
      | EOF => (Break lastFinishReason, w)
      | Failure e => (Return, Flush (Fprintf_line (errorMsg e) w))
      end
  | response :: rest =>
      let lastFinishReason :=
        match StreamChoices response !! 0%nat with
        | Some choice =>
            if decide (StreamFinishReason choice = "") then lastFinishReason
            else StreamFinishReason choice
        | None => lastFinishReason
        end in
      let '(created, w) := now w in
      match StreamChoices response !! 0%nat with
      | None => (Panic index_panic, w)
      | Some choice =>
          let w := Fprintf_line
                     (responseJSON fullModelName created (DeltaContent choice)) w in
          let w := Flush w in
          recv_loop fullModelName ending rest lastFinishReason w
      end
  end.

(** The streaming branch from the header set-up on, that is the part of the
    handler that runs under [defer stream.Close()]. Two exits of the source
    cannot be taken and have no counterpart here: [c.Writer] is a
    [gin.ResponseWriter], an interface that includes [http.Flusher], so the
    assertion [w.(http.Flusher)] holds; and [json.Marshal] does not fail on
    maps of strings, booleans and integers. *)
Definition chat_relay (fullModelName : string) (stream : ChatCompletionStream)
    (w : World) : Exit * World :=
  let w := Header_Set "Content-Type" "application/x-ndjson" w in
  let w := Header_Set "Cache-Control" "no-cache" w in
  let w := Header_Set "Connection" "keep-alive" w in
  match recv_loop fullModelName (ending stream) (pending stream) "" w with
  | (Return, w) => (Returned, w)
  | (Panic msg, w) => (Panicked msg, w)
  | (Break lastFinishReason, w) =>
      let lastFinishReason :=
        if decide (lastFinishReason = "") then "stop" else lastFinishReason in
      let '(created, w) := now w in
      let w := Fprintf_line
                 (finalResponse fullModelName created lastFinishReason) w in
      (Returned, Flush w)
  end.

(** The streaming branch. The deferred [stream.Close()] runs when the
    handler is left, by [return] or by a panic. *)
Definition chat_stream (request : ChatRequest) (w : World) : Exit * World :=
  let w := call (CallGetFullModelName (req_Model request)) w in
  match GetFullModelName (provider s) (req_Model request) with
  | Err e => (Returned, c_JSON StatusNotFound (H_error e) w)
  | Ok fullModelName =>
      let w := call (CallChatStream (req_Messages request) fullModelName) w in
      match ChatStream (provider s) (req_Messages request) fullModelName with
      | Err e => (Returned, c_JSON StatusInternalServerError (H_error e) w)
      | Ok stream =>
          let w := opened w in
          let '(exit, w) := chat_relay fullModelName stream w in
          (exit, Close w)
      end
  end.

Definition chat_handler (bound : Bind ChatRequest) (w : World)
  : Exit * World :=
  match bound with
  | BindErr _ =>
      (Returned, c_JSON StatusBadRequest (H_error "Invalid JSON payload") w)
  | BindOk request =>
      let streamRequested := default true (req_Stream request) in
      if negb streamRequested then chat_once request w
      else chat_stream request w
  end.

End Routes.

(** ** Binding a request body: [encoding/json] behind [c.BindJSON]

    gin binds a body with [json.NewDecoder(body).Decode(obj)]: the decoder
    scans the first JSON value of the body, complains if there is none, and
    stores the value into [obj]; what follows the value in the body is not
    looked at. Both are library code: the scanner below follows
    [scanner.go] and [Decoder.readValue] of [encoding/json], the store
    into a [map[string]string] follows [decode.go]. *)

Module json.

(** A scanned value. Strings and member names are kept as they stand in
    the text, between the quotes; numbers as their lexeme. *)
Inductive Value :=
  | Null
  | Bool (b : bool)
  | Number (lexeme : string)
  | Str (raw : string)
  | Arr (items : list Value)
  | Obj (members : list (string * Value)).

Inductive Scan :=
  | Scanned (v : Value) (rest : string)
  | Invalid
  | OutOfFuel.

Definition code (c : ascii) : N := N_of_ascii c.

(** The double quote. *)
Definition quote : ascii := ascii_of_nat 34.

Definition isSpace (c : ascii) : bool :=
  bool_decide (c = " "%char) || bool_decide (code c = 9%N)
  || bool_decide (code c = 13%N) || bool_decide (code c = 10%N).

Definition isDigit (c : ascii) : bool :=
  (48 <=? code c)%N && (code c <=? 57)%N.

Definition isHex (c : ascii) : bool :=
  isDigit c
  || ((97 <=? code c)%N && (code c <=? 102)%N)
  || ((65 <=? code c)%N && (code c <=? 70)%N).

Fixpoint skip_ws (s : string) : string :=
  match s with
  | String c r => if isSpace c then skip_ws r else s
  | EmptyString => EmptyString
  end.

(** The digits at the front of [s], and what follows them. *)
Fixpoint digits (s : string) : string * string :=
  match s with
  | String c r =>
      if isDigit c then let '(ds, rest) := digits r in (String c ds, rest)
      else (EmptyString, s)
  | EmptyString => (EmptyString, EmptyString)
  end.

(** A string from behind its opening quote: the text up to the closing
    quote, and what follows that quote. A control character, an escape
    other than the JSON ones, or the end of the input before the closing
    quote is an error. [seen] is the text read so far, reversed. *)
Fixpoint scan_string (seen : string) (s : string) : option (string * string) :=
  match s with
  | EmptyString => None
  | String c r =>
      if bool_decide (c = quote) then Some (String.rev seen, r)
      else if bool_decide (c = "\"%char) then
        match r with
        | String e r' =>
            if bool_decide (e ∈ ["b"; "f"; "n"; "r"; "t"; "\"; "/"; quote]%char)
            then scan_string (String e (String c seen)) r'
            else if bool_decide (e = "u"%char) then
              match r' with
              | String h1 (String h2 (String h3 (String h4 r''))) =>
                  if isHex h1 && isHex h2 && isHex h3 && isHex h4
                  then scan_string
                         (String h4 (String h3 (String h2 (String h1
                            (String e (String c seen)))))) r''
                  else None
              | _ => None
              end
            else None
        | EmptyString => None
        end
      else if (code c <? 32)%N then None
      else scan_string (String c seen) r
  end.

(** A number from its first character on: the scanner takes the longest
    run that can still become a number and fails if it stops short of
    one. *)
Definition scan_int (s : string) : option (string * string) :=
  match s with
  | String c r =>
      if bool_decide (c = "0"%char) then Some ("0", r)
      else if isDigit c then
        let '(ds, rest) := digits r in Some (String c ds, rest)
      else None
  | EmptyString => None
  end.

Definition scan_frac (s : string) : option (string * string) :=
  match s with
  | String c r =>
      if bool_decide (c = "."%char) then
        match digits r with
        | (EmptyString, _) => None
        | (ds, rest) => Some (String c ds, rest)
        end
      else Some (EmptyString, s)
  | EmptyString => Some (EmptyString, s)
  end.

Definition scan_exp (s : string) : option (string * string) :=
  match s with
  | String c r =>
      if bool_decide (c = "e"%char) || bool_decide (c = "E"%char) then
        let '(sign, r1) :=
          match r with
          | String g r' =>
              if bool_decide (g = "+"%char) || bool_decide (g = "-"%char)
              then (String g EmptyString, r') else (EmptyString, r)
          | EmptyString => (EmptyString, r)
          end in
        match digits r1 with
        | (EmptyString, _) => None
        | (ds, rest) => Some (String c (sign +:+ ds), rest)
        end
      else Some (EmptyString, s)
  | EmptyString => Some (EmptyString, s)
  end.

Definition scan_number (s : string) : option (string * string) :=
  let '(minus, s1) :=
    match s with
    | String c r =>
        if bool_decide (c = "-"%char) then (String c EmptyString, r)
        else (EmptyString, s)
    | EmptyString => (EmptyString, s)
    end in
  '(i, s2) ← scan_int s1;
  '(f, s3) ← scan_frac s2;
  '(e, s4) ← scan_exp s3;
  Some (minus +:+ i +:+ f +:+ e, s4).

(** [word] at the front of [s]: what follows it. *)
Fixpoint scan_word (word s : string) : option string :=
  match word with
  | EmptyString => Some s
  | String w word' =>
      match s with
      | String c r => if bool_decide (c = w) then scan_word word' r else None
      | EmptyString => None
      end
  end.

Definition maxNestingDepth : N := 10000.

(** The first value of [s], white space before it skipped, and the text
    behind it. [members] starts where a member name has to come, [elements]
    where an array element has to. *)
Fixpoint value (fuel : nat) (depth : N) (s : string) : Scan :=
  match fuel with
  | O => OutOfFuel
  | S fuel =>
      match skip_ws s with
      | EmptyString => Invalid
      | String c r =>
          if bool_decide (c = "{"%char) then
            if (maxNestingDepth <? depth + 1)%N then Invalid
            else
              match skip_ws r with
              | String d r' =>
                  if bool_decide (d = "}"%char) then Scanned (Obj []) r'
                  else members fuel (depth + 1)%N r []
              | EmptyString => Invalid
              end
          else if bool_decide (c = "["%char) then
            if (maxNestingDepth <? depth + 1)%N then Invalid
            else
              match skip_ws r with
              | String d r' =>
                  if bool_decide (d = "]"%char) then Scanned (Arr []) r'
                  else elements fuel (depth + 1)%N r []
              | EmptyString => Invalid
              end
          else if bool_decide (c = quote) then
            match scan_string EmptyString r with
            | Some (raw, rest) => Scanned (Str raw) rest
            | None => Invalid
            end
          else if bool_decide (c = "-"%char) || isDigit c then
            match scan_number (String c r) with
            | Some (lexeme, rest) => Scanned (Number lexeme) rest
            | None => Invalid
            end
          else if bool_decide (c = "t"%char) then
            match scan_word "rue" r with
            | Some rest => Scanned (Bool true) rest
            | None => Invalid
            end
          else if bool_decide (c = "f"%char) then
            match scan_word "alse" r with
            | Some rest => Scanned (Bool false) rest
            | None => Invalid
            end
          else if bool_decide (c = "n"%char) then
            match scan_word "ull" r with
            | Some rest => Scanned Null rest
            | None => Invalid
            end
          else Invalid
      end
  end
with members (fuel : nat) (depth : N) (s : string)
    (seen : list (string * Value)) : Scan :=
  match fuel with
  | O => OutOfFuel
  | S fuel =>
      match skip_ws s with
      | String q r =>
          if bool_decide (q = quote) then
            match scan_string EmptyString r with
            | Some (name, r1) =>
                match skip_ws r1 with
                | String c r2 =>
                    if bool_decide (c = ":"%char) then
                      match value fuel depth r2 with
                      | Scanned v r3 =>
                          match skip_ws r3 with
                          | String d r4 =>
                              if bool_decide (d = ","%char)
                              then members fuel depth r4 ((name, v) :: seen)
                              else if bool_decide (d = "}"%char)
                              then Scanned (Obj (reverse ((name, v) :: seen))) r4
                              else Invalid
                          | EmptyString => Invalid
                          end
                      | other => other
                      end
                    else Invalid
                | EmptyString => Invalid
                end
            | None => Invalid
            end
          else Invalid
      | EmptyString => Invalid
      end
  end
with elements (fuel : nat) (depth : N) (s : string) (seen : list Value)
    : Scan :=
  match fuel with
  | O => OutOfFuel
  | S fuel =>
      match value fuel depth s with
      | Scanned v r1 =>
          match skip_ws r1 with
          | String d r2 =>
              if bool_decide (d = ","%char)
              then elements fuel depth r2 (v :: seen)
              else if bool_decide (d = "]"%char)
              then Scanned (Arr (reverse (v :: seen))) r2
              else Invalid
          | EmptyString => Invalid
          end
      | other => other
      end
  end.

(** [Decoder.Decode] as far as the scanning goes. *)
Definition decode (body : string) : Scan :=
  value (2 * String.length body + 2) 0 body.

(** *** Unquoting: [unquoteBytes] *)

Definition byte_of (n : N) : ascii := ascii_of_N n.

Definition replacement : string :=
  String (byte_of 239) (String (byte_of 191) (String (byte_of 189) EmptyString)).

Definition isCont (lo hi : N) (c : ascii) : bool :=
  (lo <=? code c)%N && (code c <=? hi)%N.

(** [utf8.DecodeRune]: the width of the well-formed rune at the front of
    [s], [0] when the bytes there are no well-formed rune. *)
Definition utf8_width (s : string) : nat :=
  match s with
  | String c0 r =>
      let b := code c0 in
      let two lo hi :=
        match r with
        | String c1 _ => if isCont lo hi c1 then 2%nat else 0%nat
        | _ => 0%nat
        end in
      let three lo hi :=
        match r with
        | String c1 (String c2 _) =>
            if isCont lo hi c1 && isCont 128 191 c2 then 3%nat else 0%nat
        | _ => 0%nat
        end in
      let four lo hi :=
        match r with
        | String c1 (String c2 (String c3 _)) =>
            if isCont lo hi c1 && isCont 128 191 c2 && isCont 128 191 c3
            then 4%nat else 0%nat
        | _ => 0%nat
        end in
      if (b <? 128)%N then 1%nat
      else if (b <? 194)%N then 0%nat
      else if (b <? 224)%N then two 128%N 191%N
      else if (b =? 224)%N then three 160%N 191%N
      else if (b =? 237)%N then three 128%N 159%N
      else if (b <? 240)%N then three 128%N 191%N
      else if (b =? 240)%N then four 144%N 191%N
      else if (b <? 244)%N then four 128%N 191%N
      else if (b =? 244)%N then four 128%N 143%N
      else 0%nat
  | EmptyString => 0%nat
  end.

(** [utf8.EncodeRune]. *)
Definition encode_rune (n : N) : string :=
  if (n <? 128)%N then String (byte_of n) EmptyString
  else if (n <? 2048)%N then
    String (byte_of (192 + N.shiftr n 6))
      (String (byte_of (128 + N.land n 63)) EmptyString)
  else if ((55296 <=? n) && (n <=? 57343))%N || (1114111 <? n)%N then
    replacement
  else if (n <? 65536)%N then
    String (byte_of (224 + N.shiftr n 12))
      (String (byte_of (128 + N.land (N.shiftr n 6) 63))
         (String (byte_of (128 + N.land n 63)) EmptyString))
  else
    String (byte_of (240 + N.shiftr n 18))
      (String (byte_of (128 + N.land (N.shiftr n 12) 63))
         (String (byte_of (128 + N.land (N.shiftr n 6) 63))
            (String (byte_of (128 + N.land n 63)) EmptyString))).

Definition hex_value (c : ascii) : N :=
  if isDigit c then code c - 48
  else if (97 <=? code c)%N then code c - 87
  else code c - 55.

(** [getu4]: the number written by an escape [\uXXXX] at the front of
    [s]. *)
Definition getu4 (s : string) : option N :=
  match s with
  | String b (String u (String h1 (String h2 (String h3 (String h4 _))))) =>
      if bool_decide (b = "\"%char) && bool_decide (u = "u"%char)
         && isHex h1 && isHex h2 && isHex h3 && isHex h4
      then Some (4096 * hex_value h1 + 256 * hex_value h2
                 + 16 * hex_value h3 + hex_value h4)%N
      else None
  | _ => None
  end.

Fixpoint drop_bytes (n : nat) (s : string) : string :=
  match n, s with
  | S n, String _ r => drop_bytes n r
  | _, _ => s
  end.

Definition escaped (e : ascii) : ascii :=
  if bool_decide (e = "b"%char) then byte_of 8
  else if bool_decide (e = "f"%char) then byte_of 12
  else if bool_decide (e = "n"%char) then byte_of 10
  else if bool_decide (e = "r"%char) then byte_of 13
  else if bool_decide (e = "t"%char) then byte_of 9
  else e.

(** The Go string a scanned string stands for: escapes are replaced,
    [\uXXXX] by the UTF-8 form of its character (two escapes that form a
    surrogate pair by one character, a surrogate alone by U+FFFD), and
    bytes that are not well-formed UTF-8 by U+FFFD. [copy] counts the bytes
    of the current rune still to take over, [skip] the bytes of the current
    escape still to pass. *)
Fixpoint unquote_go (copy skip : nat) (s : string) : string :=
  match s with
  | EmptyString => EmptyString
  | String c r =>
      match skip with
      | S k => unquote_go copy k r
      | O =>
          match copy with
          | S k => String c (unquote_go k 0 r)
          | O =>
              if bool_decide (c = "\"%char) then
                match r with
                | String e _ =>
                    if bool_decide (e = "u"%char) then
                      match getu4 s with
                      | Some rr =>
                          if ((55296 <=? rr) && (rr <=? 57343))%N then
                            match getu4 (drop_bytes 6 s) with
                            | Some rr1 =>
                                if ((rr <? 56320) && (56320 <=? rr1)
                                    && (rr1 <=? 57343))%N
                                then
                                  encode_rune
                                    (65536 + 1024 * (rr - 55296) + (rr1 - 56320))
                                  +:+ unquote_go 0 11 r
                                else replacement +:+ unquote_go 0 5 r
                            | None => replacement +:+ unquote_go 0 5 r
                            end
                          else encode_rune rr +:+ unquote_go 0 5 r
                      | None => EmptyString
                      end
                    else String (escaped e) (unquote_go 0 1 r)
                | EmptyString => EmptyString
                end
              else
                match utf8_width s with
                | O => replacement +:+ unquote_go 0 0 r
                | S k => String c (unquote_go k 0 r)
                end
          end
      end
  end.

Definition unquote (raw : string) : string := unquote_go 0 0 raw.

(** *** Storing a value into a [map[string]string] *)

(** One member of the object: a string is stored unquoted, [null] as the
    empty string; any other value is a type error, which [Decode]
    reports once the object is through. *)
Definition store_member (acc : gmap string string * bool)
    (member : string * Value) : gmap string string * bool :=
  match member.2 with
  | Str raw => (<[unquote member.1 := unquote raw]> acc.1, acc.2)
  | Null => (<[unquote member.1 := ""]> acc.1, acc.2)
  | _ => (acc.1, false)
  end.

Definition into_map (v : Value) : Bind (gmap string string) :=
  match v with
  | Null => BindOk ∅
  | Obj members =>
      match foldl store_member (∅, true) members with
      | (m, true) => BindOk m
      | (_, false) =>
          BindErr "json: cannot unmarshal value into Go value of type string"
      end
  | _ =>
      BindErr
        "json: cannot unmarshal value into Go value of type map[string]string"
  end.

(** [decodeJSON] of gin: the first value of the body is scanned and stored
    with [into]; the rest of the body is left unread. *)
Definition decodeJSON {A} (into : Value → Bind A) (body : string) : Bind A :=
  match decode body with
  | Scanned v _ => into v
  | _ => BindErr "invalid character or unexpected end of JSON input"
  end.

End json.

(** The details route and the chat route from the request body on.
    [into] is how [Decode] stores a scanned value into the request struct
    of the chat route, with the message decoder of go-openai, and how gin
    validates the struct afterwards; it is library code and left open. *)
Definition show_route (s : Server) (body : string) (w : World)
  : Exit * World :=
  show_handler s (json.decodeJSON json.into_map body) w.

Definition chat_route (clock : nat → string) (s : Server)
    (into : json.Value → Bind ChatRequest) (body : string) (w : World)
  : Exit * World :=
  chat_handler clock s (json.decodeJSON into body) w.

(** A body that is a JSON text: one value, with nothing but white space
    behind it. *)
Definition json_text (body : string) : Prop :=
  ∃ v rest,
    json.decode body = json.Scanned v rest ∧ json.skip_ws rest = EmptyString.

(** A request refused before any backend call: the handler returns, the
    response has status 400 and no provider method was called on the way. *)
Definition refused (r : Exit * World) (w : World) : Prop :=
  r.1 = Returned ∧ status r.2 = Some StatusBadRequest ∧ calls r.2 = calls w.

(** Request bodies: one cut off in the middle of its object, one with no
    member, and a well-formed object with other text behind it. *)
Definition quoted (s : string) : string :=
  String json.quote (s +:+ String json.quote EmptyString).

Definition ex_cut_body : string := "{" +:+ quoted "name" +:+ ": ".

Definition ex_empty_body : string := "{}".

Definition ex_trailing_body : string :=
  "{" +:+ quoted "name" +:+ ": " +:+ quoted "gpt-4o-mini" +:+ "} trailing".

(** ** Reading the frames a handler wrote *)

(** The [done] flag of a written object, when it has one. *)
Definition done_flag (x : Written) : option bool :=
  match field "done" (payload x) with
  | Some (JBool b) => Some b
  | _ => None
  end.

Definition str_field (k : string) (j : JSON) : option string :=
  match field k j with
  | Some (JStr v) => Some v
  | _ => None
  end.

Definition model_of (x : Written) : option string :=
  str_field "model" (payload x).

Definition role_of (x : Written) : option string :=
  field "message" (payload x) ≫= str_field "role".

Definition content_of (x : Written) : option string :=
  field "message" (payload x) ≫= str_field "content".

Definition finish_reason_of (x : Written) : option string :=
  str_field "finish_reason" (payload x).

(** What a handler added to the body: the writes of [w'] after those
    already in [w]. *)
Definition emitted (w w' : World) : list Written :=
  drop (length (body w)) (body w').

(** A frame of the streaming format: the object followed by a line feed. *)
Definition line (j : JSON) : Written := {| payload := j; newline := true |}.

(** The content fragment of a delta: [response.Choices[0].Delta.Content]. *)
Definition fragment (d : ChatCompletionStreamResponse) : option string :=
  DeltaContent <$> StreamChoices d !! 0%nat.

(** The lines of a filter file as the scanner hands them out. *)
Definition file_lines (content : string) : list string :=
  Filter.dropCR <$> Filter.raw_lines EmptyString content.

(** ** Notions the properties are stated with *)

(** The entries of the catalog the filter [F] lets through. *)
Definition passes (F : gset string) (m : ModelInfo) : Prop :=
  F = ∅ ∨ m_Model m ∈ F.

#[global] Instance passes_dec F m : Decision (passes F m).
Proof. unfold passes. apply _. Defined.

(** A delta the loop can build a frame from: it carries a first choice. *)
Definition has_choice (d : ChatCompletionStreamResponse) : Prop :=
  StreamChoices d ≠ [].

(** The frames the loop writes for the deltas [ds], the clock having been
    read [t] times before. *)
Fixpoint relayed (clock : nat → string) (fullModelName : string) (t : nat)
    (ds : list ChatCompletionStreamResponse) : list Written :=
  match ds with
  | [] => []
  | d :: ds =>
      line (responseJSON fullModelName (clock t) (default "" (fragment d)))
      :: relayed clock fullModelName (S t) ds
  end.

(** The finish reason remembered after the deltas [ds]: the last one that is
    not empty, [last] when there is none. *)
Fixpoint remembered (last : string) (ds : list ChatCompletionStreamResponse)
    : string :=
  match ds with
  | [] => last
  | d :: ds =>
      remembered
        (match StreamChoices d !! 0%nat with
         | Some choice =>
             if decide (StreamFinishReason choice = "") then last
             else StreamFinishReason choice
         | None => last
         end) ds
  end.

(** What the streaming branch may write under a resolved model name: a chat
    frame for that model, or an error object. *)
Definition chat_frame (fullModelName : string) (x : Written) : Prop :=
  is_Some (done_flag x)
  ∧ model_of x = Some fullModelName
  ∧ role_of x = Some "assistant".

Definition error_object (x : Written) : Prop :=
  ∃ e, payload x = H_error e.

(** The finish reason of the final frame. *)
Definition final_reason (ds : list ChatCompletionStreamResponse) : string :=
  if decide (remembered "" ds = "") then "stop" else remembered "" ds.

(** ** Sample backends and requests *)

Definition ex_clock (n : nat) : string := "2025-01-01T00:00:00Z".

Definition ex_delta (content finish : string) : ChatCompletionStreamResponse :=
  {| StreamChoices :=
       [ {| DeltaContent := content; StreamFinishReason := finish |} ] |}.

Definition ex_catalog : list ModelInfo :=
  [ {| m_Name := "openai/gpt-4o-mini"; m_Model := "gpt-4o-mini";
       m_ModifiedAt := "2024-07-18T00:00:00Z"; m_Details := JObj [] |};
    {| m_Name := "openai/gpt-4o"; m_Model := "gpt-4o";
       m_ModifiedAt := "2024-05-13T00:00:00Z"; m_Details := JObj [] |} ].

Definition ex_completion : ChatCompletionResponse :=
  {| Choices :=
       [ {| Message := {| Role := "assistant"; Content := "hello" |};
            FinishReason := "" |} ];
     ResponseUsage :=
       {| PromptTokens := 3; CompletionTokens := 5; TotalTokens := 8 |} |}.

(** A backend that knows the alias [gpt-4o-mini] only and answers every
    streaming call with [stream]. *)
Definition ex_provider (stream : ChatCompletionStream) : OpenrouterProvider :=
  {| GetModels := Ok ex_catalog;
     GetModelDetails := λ _, Ok (JObj []);
     GetFullModelName := λ alias,
       if decide (alias = "gpt-4o-mini") then Ok "openai/gpt-4o-mini"
       else Err "model not found";
     Chat := λ _ _, Ok ex_completion;
     ChatStream := λ _ _, Ok stream |}.

Definition ex_server (stream : ChatCompletionStream) : Server :=
  {| provider := ex_provider stream; filterMap := {[ "gpt-4o-mini" ]} |}.

(** Deltas "He", "llo", then end of stream. *)
Definition ex_hello : ChatCompletionStream :=
  {| pending := [ex_delta "He" ""; ex_delta "llo" "stop"]; ending := EOF |}.

(** Delta "He", then the stream breaks. *)
Definition ex_broken : ChatCompletionStream :=
  {| pending := [ex_delta "He" ""]; ending := Failure "connection reset" |}.

(** Delta "He", a delta without choices, delta "llo", then end of stream. *)
Definition ex_gapped : ChatCompletionStream :=
  {| pending := [ex_delta "He" ""; {| StreamChoices := [] |};
                 ex_delta "llo" "stop"];
     ending := EOF |}.

Definition ex_request (alias : string) (stream : option bool) : ChatRequest :=
  {| req_Model := alias;
     req_Messages := [ {| Role := "user"; Content := "hi" |} ];
     req_Stream := stream |}.

Definition LF : string := String (Filter.byte 10) EmptyString.

(** A filter file with a [#] line, a duplicated name and a blank line. *)
Definition ex_filter_file : string :=
  "# local models" +:+ LF +:+ "gpt-4o-mini" +:+ LF +:+ LF
  +:+ "  gpt-4o-mini  " +:+ LF.

(** ** Server start-up: [Start]

    [Start] builds the provider from the API key, loads the filter file and,
    unless that fails for another reason than a missing file, sets up the
    routes and serves them until [Stop]. What it serves is determined by the
    [Server] state computed here; [None] is the early [return] that leaves
    no route set up. *)

(** [os.IsNotExist(err)] on the errors [loadModelFilter] can return. *)
Definition IsNotExist (msg : string) : bool :=
  bool_decide (msg = "open: no such file or directory").

Definition Start (NewOpenrouterProvider : string → OpenrouterProvider)
    (apiKey : string) (file : option string) : option Server :=
  let provider := NewOpenrouterProvider apiKey in
  match Filter.loadModelFilter file with
  | Err e =>
      if IsNotExist e then Some {| provider := provider; filterMap := ∅ |}
      else None
  | Ok filter => Some {| provider := provider; filterMap := filter |}
  end.

(** ** The filter file with the failures of the operating system *)

Module OnDisk.

(** An error of the [os] package; [notExist] is what [os.IsNotExist] says
    of it. *)
Record Error := {
  message : string;
  notExist : bool;
}.

(** What is found at [path]: [os.Open] fails, or the file opens and the
    scanner reads [read] from it, up to the end of the file or up to a
    read that fails. *)
Inductive File :=
  | Unopened (err : Error)
  | Opened (read : string) (failure : option Error).

Inductive Loaded :=
  | Failed (err : Error)
  | Names (filter : gset string).

(** [bufio.ErrTooLong]. *)
Definition ErrTooLong : Error :=
  {| message := "bufio.Scanner: token too long"; notExist := false |}.

(** [loadModelFilter]. The scanner treats a failed read as it treats the
    end of the file, handing out what it has read line by line, and
    remembers the error for [scanner.Err()]; an over-long line stops it
    before it reads on. *)
Definition loadModelFilter (file : File) : Loaded :=
  match file with
  | Unopened err => Failed err
  | Opened read failure =>
      let '(toks, long) := Filter.Scanner read in
      let filter := foldl Filter.add_line ∅ toks in
      match long, failure with
      | Some _, _ => Failed ErrTooLong
      | None, Some err => Failed err
      | None, None => Names filter
      end
  end.

(** [Start] up to the point where the routes are set up; [None] is the
    early [return]. *)
Definition Start (NewOpenrouterProvider : string → OpenrouterProvider)
    (apiKey : string) (file : File) : option Server :=
  let provider := NewOpenrouterProvider apiKey in
  match loadModelFilter file with
  | Failed err =>
      if notExist err then Some {| provider := provider; filterMap := ∅ |}
      else None
  | Names filter => Some {| provider := provider; filterMap := filter |}
  end.

(** The file as [Filter.loadModelFilter] and [Start] above take it: there
    is none, or it is read to its end. *)
Definition plain (file : option string) : File :=
  match file with
  | None =>
      Unopened {| message := "open: no such file or directory";
                  notExist := true |}
  | Some content => Opened content None
  end.

End OnDisk.

(** No white-space rune of [table] starts [s]. *)
Definition no_space_at_front (table : list string) (s : string) : Prop :=
  Forall (λ sp, String.prefix sp s = false) table.

(** The finish reason of the first choice of a delta, when it has one. *)
Definition finish_of (d : ChatCompletionStreamResponse) : option string :=
  StreamFinishReason <$> StreamChoices d !! 0%nat.

(** The finish reasons the deltas [ds] announce: those of the first choices
    that are not empty, in arrival order. *)
Definition announced (ds : list ChatCompletionStreamResponse) : list string :=
  filter (λ r, r ≠ "") (omap finish_of ds).

(** The provider calls of the chat route for [request]. *)
Definition chat_calls (s : Server) (request : ChatRequest) : list Call :=
  CallGetFullModelName (req_Model request)
  :: match GetFullModelName (provider s) (req_Model request) with
     | Err _ => []
     | Ok full =>
         if default true (req_Stream request)
         then [CallChatStream (req_Messages request) full]
         else [CallChat (req_Messages request) full]
     end.

(** ** The status-bar application: [app.go]

    The application holds a proxy server in [a.server] and starts and
    stops it under [serverMutex]. The model follows one goroutine through
    [startServer], [stopServer], [onExit] and the handler of the toggle menu
    item, and lets the [Start] goroutines of the launched servers advance
    in between. What these do to the outside is kept in the machine state:
    every server created with [NewServer] and launched with
    [go a.server.Start()], with how far its [Start] has come, the
    configurations handed to [SaveConfig], the titles of the menu items. [systray.SetIcon] is left out: [getActiveIcon] returns the
    bytes of [getIcon], so the icon set is the same on every path. *)

Record Config := {
  ServerEnabled : bool;
  LastUsedModelFilter : string;
}.

Definition DefaultConfig : Config :=
  {| ServerEnabled := false; LastUsedModelFilter := "models-filter" |}.

(** The fields of a [Server] that [NewServer] sets. *)
Record Proxy := {
  apiKey : string;
  modelFilter : string;
}.

Definition NewServer (apiKey modelFilter : string) : Proxy :=
  {| apiKey := apiKey; modelFilter := modelFilter |}.

#[global] Instance Proxy_eq_dec : EqDecision Proxy.
Proof. solve_decision. Defined.

(** How far the [Start] goroutine of a launched server has come. [Stop]
    tells by [s.httpServer], which is nil until [Start] has loaded the
    filter and set up the routes. Whether [ListenAndServe] got the port is
    not looked at. *)
Inductive Phase :=
  | Starting   (* Start runs, s.httpServer is still nil *)
  | Serving    (* s.httpServer is set, Start waits on s.stopCh *)
  | GaveUp     (* Start has returned on a filter error, s.httpServer is nil *)
  | Stopped.   (* Stop has shut the server down and Start has returned *)

#[global] Instance Phase_eq_dec : EqDecision Phase.
Proof. solve_decision. Defined.

(** [Start] has not returned. *)
Definition live (ph : Phase) : bool :=
  match ph with
  | Starting | Serving => true
  | GaveUp | Stopped => false
  end.

(** [s.Stop()] on the server at place [i] of those launched: nothing
    happens while [s.httpServer] is nil; otherwise the server is shut down,
    [s.stopCh] is closed and [Start] returns. Closing [s.stopCh] a second
    time panics: [None]. *)
Definition Stop (i : nat) (servers : list (Proxy * Phase))
  : option (list (Proxy * Phase)) :=
  match servers !! i with
  | Some (srv, Serving) => Some (<[i := (srv, Stopped)]> servers)
  | Some (srv, Stopped) => None
  | _ => Some servers
  end.

(** [Start] of the server at place [i] gets as far as setting
    [s.httpServer]. *)
Definition serve (i : nat) (servers : list (Proxy * Phase))
  : list (Proxy * Phase) :=
  match servers !! i with
  | Some (srv, Starting) => <[i := (srv, Serving)]> servers
  | _ => servers
  end.

(** [Start] of the server at place [i] returns because the filter file
    could not be loaded. *)
Definition bail_out (i : nat) (servers : list (Proxy * Phase))
  : list (Proxy * Phase) :=
  match servers !! i with
  | Some (srv, Starting) => <[i := (srv, GaveUp)]> servers
  | _ => servers
  end.

(** [a.server] points to one of the servers launched, given by its
    place. *)
Record App := {
  config : Config;
  server : option nat;
  serverActive : bool;
}.

Record Machine := {
  app : App;
  locked : bool;               (* serverMutex is held *)
  keyring : option string;     (* the API key in the keyring, if any *)
  keyringWritable : bool;      (* keyring.Set succeeds *)
  servers : list (Proxy * Phase);  (* the servers launched, oldest first *)
  saved : list Config;         (* arguments of SaveConfig, oldest first *)
  toggleTitle : string;        (* title of the toggle menu item *)
  statusTitle : string;        (* title of the status menu item *)
}.

(** [NewApp] with the loaded configuration, the menu as [onReady] builds
    it. *)
Definition NewApp (config : Config) (keyring : option string)
    (keyringWritable : bool) : Machine :=
  {| app := {| config := config; server := None; serverActive := false |};
     locked := false; keyring := keyring; keyringWritable := keyringWritable;
     servers := []; saved := [];
     toggleTitle := "Start Server"; statusTitle := "Status: Stopped" |}.

(** The servers launched whose [Start] has not returned. *)
Definition running (m : Machine) : list Proxy :=
  omap (λ e : Proxy * Phase, if live e.2 then Some e.1 else None) (servers m).

(** How a call ends: it returns, the goroutine blocks for good in [Lock]
    on a mutex it holds itself, or it panics. *)
Inductive Run :=
  | Done (m : Machine)
  | Blocked (m : Machine)
  | Crashed (m : Machine).

Definition set_locked (b : bool) (m : Machine) : Machine :=
  {| app := app m; locked := b; keyring := keyring m;
     keyringWritable := keyringWritable m; servers := servers m;
     saved := saved m; toggleTitle := toggleTitle m;
     statusTitle := statusTitle m |}.

Definition set_app (a : App) (m : Machine) : Machine :=
  {| app := a; locked := locked m; keyring := keyring m;
     keyringWritable := keyringWritable m; servers := servers m;
     saved := saved m; toggleTitle := toggleTitle m;
     statusTitle := statusTitle m |}.

Definition set_servers (l : list (Proxy * Phase)) (m : Machine) : Machine :=
  {| app := app m; locked := locked m; keyring := keyring m;
     keyringWritable := keyringWritable m; servers := l;
     saved := saved m; toggleTitle := toggleTitle m;
     statusTitle := statusTitle m |}.

Definition set_keyring (k : option string) (m : Machine) : Machine :=
  {| app := app m; locked := locked m; keyring := k;
     keyringWritable := keyringWritable m; servers := servers m;
     saved := saved m; toggleTitle := toggleTitle m;
     statusTitle := statusTitle m |}.

Definition set_titles (toggle status : string) (m : Machine) : Machine :=
  {| app := app m; locked := locked m; keyring := keyring m;
     keyringWritable := keyringWritable m; servers := servers m;
     saved := saved m; toggleTitle := toggle; statusTitle := status |}.

(** [SaveConfig(config)]; its error is not looked at by the callers. *)
Definition SaveConfig (c : Config) (m : Machine) : Machine :=
  {| app := app m; locked := locked m; keyring := keyring m;
     keyringWritable := keyringWritable m; servers := servers m;
     saved := saved m ++ [c]; toggleTitle := toggleTitle m;
     statusTitle := statusTitle m |}.

(** [a.serverMutex.Lock()] by a goroutine that is alone in touching the
    mutex: on a held mutex it never returns. *)
Definition Lock (m : Machine) : Run :=
  if locked m then Blocked m else Done (set_locked true m).

Definition Unlock (m : Machine) : Machine := set_locked false m.

(** [GetAPIKey], [HasAPIKey], [SetAPIKey]. *)
Definition GetAPIKey (m : Machine) : option string := keyring m.

Definition HasAPIKey (m : Machine) : bool :=
  match GetAPIKey m with Some _ => true | None => false end.

Definition SetAPIKey (key : string) (m : Machine) : Machine :=
  if keyringWritable m then set_keyring (Some key) m else m.

Definition enabled (b : bool) (c : Config) : Config :=
  {| ServerEnabled := b; LastUsedModelFilter := LastUsedModelFilter c |}.

(** [startServer] between [Lock] and the deferred [Unlock]. *)
Definition startServer_locked (m : Machine) : Machine :=
  if serverActive (app m) then m
  else
    match GetAPIKey m with
    | None => m
    | Some key =>
        let srv := NewServer key (LastUsedModelFilter (config (app m))) in
        let i := length (servers m) in
        (* go a.server.Start() *)
        let m := set_servers (servers m ++ [(srv, Starting)]) m in
        let c := enabled true (config (app m)) in
        let m := set_app {| config := c; server := Some i;
                            serverActive := true |} m in
        SaveConfig c m
    end.

Definition startServer (m : Machine) : Run :=
  match Lock m with
  | Done m => Done (Unlock (startServer_locked m))
  | Blocked m => Blocked m
  | Crashed m => Crashed m
  end.

(** [stopServer] between [Lock] and the deferred [Unlock]; [None] when
    [a.server.Stop()] panics. *)
Definition stopServer_locked (m : Machine) : option Machine :=
  match serverActive (app m), server (app m) with
  | true, Some i =>
      (* a.server.Stop() *)
      match Stop i (servers m) with
      | None => None
      | Some l =>
          let m := set_servers l m in
          let c := enabled false (config (app m)) in
          let m := set_app {| config := c; server := None;
                              serverActive := false |} m in
          Some (SaveConfig c m)
      end
  | _, _ => Some m
  end.

Definition stopServer (m : Machine) : Run :=
  match Lock m with
  | Done m =>
      match stopServer_locked m with
      | Some m' => Done (Unlock m')
      | None => Crashed (Unlock m)
      end
  | Blocked m => Blocked m
  | Crashed m => Crashed m
  end.

(** [showAPIKeyDialog]; [typed] is what [fmt.Scanln] reads. *)
Definition showAPIKeyDialog (typed : string) (m : Machine) : Machine :=
  if decide (typed = "") then m else SetAPIKey typed m.

(** [onExit]. *)
Definition onExit (m : Machine) : Run :=
  match stopServer m with
  | Done m => Done (SaveConfig (config (app m)) m)
  | Blocked m => Blocked m
  | Crashed m => Crashed m
  end.

(** The [case <-mToggle.ClickedCh] branch of the menu loop. *)
Definition onToggle (typed : string) (m : Machine) : Run :=
  match Lock m with
  | Blocked m => Blocked m
  | Done m =>
      if serverActive (app m) then
        match stopServer m with
        | Done m =>
            Done (Unlock (set_titles "Start Server" "Status: Stopped" m))
        | Blocked m => Blocked m
        | Crashed m => Crashed m
        end
      else
        let m := if negb (HasAPIKey m) then showAPIKeyDialog typed m else m in
        if HasAPIKey m then
          match startServer m with
          | Done m =>
              Done (Unlock (set_titles "Stop Server" "Status: Running" m))
          | Blocked m => Blocked m
          | Crashed m => Crashed m
          end
        else Done (Unlock m)
  | Crashed m => Crashed m
  end.

(** What happens next: a call made by the application outside the toggle
    handler, or a step of the [Start] goroutine of the server at place
    [i]. *)
Inductive Op :=
  | OpStart
  | OpStop
  | OpExit
  | OpServe (i : nat)
  | OpGiveUp (i : nat).

Definition step (o : Op) (m : Machine) : Run :=
  match o with
  | OpStart => startServer m
  | OpStop => stopServer m
  | OpExit => onExit m
  | OpServe i => Done (set_servers (serve i (servers m)) m)
  | OpGiveUp i => Done (set_servers (bail_out i (servers m)) m)
  end.

(** The steps [ops] one after the other. *)
Fixpoint steps (ops : list Op) (m : Machine) : Run :=
  match ops with
  | [] => Done m
  | o :: ops =>
      match step o m with
      | Done m => steps ops m
      | Blocked m => Blocked m
      | Crashed m => Crashed m
      end
  end.

(** What [Stop], [serve] and [bail_out] do to the list of servers: at most
    the phase of the server at the given place changes. *)
Definition retagged (i : nat) (l l' : list (Proxy * Phase)) : Prop :=
  l' = l ∨ ∃ srv ph ph', l !! i = Some (srv, ph) ∧ l' = <[i := (srv, ph')]> l.

(** The phase of the server at place [i]. *)
Definition phase (i : nat) (m : Machine) : option Phase :=
  snd <$> servers m !! i.

(** [Start] of the server at place [i] does not give up in [ops]. *)
Definition holds_on (i : nat) (ops : list Op) : Prop :=
  OpGiveUp i ∉ ops.



(** The same names in another order, one of them twice. *)
Definition ex_filter_file_shuffled : string :=
  "gpt-4o" +:+ LF +:+ "gpt-4o-mini" +:+ LF +:+ "gpt-4o" +:+ LF.

Definition ex_filter_file_sorted : string :=
  "gpt-4o-mini" +:+ LF +:+ "gpt-4o".

(** The table entries are not empty, so that a width of zero means that no
    entry starts the string. *)
Definition proper (table : list string) : Prop :=
  Forall (λ sp, sp ≠ "") table.

(** Deltas "a" with finish reason "length", "b" with none, "c" with
    "stop", "d" with none, then end of stream. *)
Definition ex_two_reasons : ChatCompletionStream :=
  {| pending := [ex_delta "a" "length"; ex_delta "b" ""; ex_delta "c" "stop";
                 ex_delta "d" ""];
     ending := EOF |}.

(** A server created with the stored key and the configured filter
    path. *)
Definition configured (cfg : Config) (kr : option string)
    (e : Proxy * Phase) : Prop :=
  ∃ key, kr = Some key ∧ e.1 = NewServer key (LastUsedModelFilter cfg).

(** What the application keeps true between calls: the mutex is free, the
    server is active exactly when the application holds one, the last
    configuration handed to [SaveConfig] is the current one, the filter
    path and the keyring are those it started with, the server it holds is
    the one launched last, not yet stopped, with the configuration saying
    that the server is enabled, and every server launched was created with
    the stored key and the configured path. *)
Definition in_order (cfg : Config) (kr : option string) (m : Machine) : Prop :=
  locked m = false
  ∧ serverActive (app m) = bool_decide (is_Some (server (app m)))
  ∧ (saved m = [] ∨ last (saved m) = Some (config (app m)))
  ∧ LastUsedModelFilter (config (app m)) = LastUsedModelFilter cfg
  ∧ keyring m = kr
  ∧ (∀ i, server (app m) = Some i →
          S i = length (servers m)
          ∧ ServerEnabled (config (app m)) = true
          ∧ ∃ ph, phase i m = Some ph ∧ ph ≠ Stopped)
  ∧ Forall (configured cfg kr) (servers m).

(** * Properties *)

(** ** The catalog route *)

Section Catalog.

Variable F : gset string.

Lemma tags_step_passes acc m :
  tags_step F acc m = if decide (passes F m) then acc ++ [tags_entry m] else acc.
Proof.
  unfold tags_step.
  destruct (decide (F = ∅)) as [E|Hne].
  - assert (size F = 0%nat) as -> by (rewrite E; apply size_empty).
    rewrite bool_decide_eq_false_2 by lia. simpl.
    rewrite decide_True; [done|by left].
  - assert (0 < size F)%nat as Hpos.
    { destruct (decide (size F = 0%nat)) as [E|]; [|lia].
      apply size_empty_inv in E. apply leibniz_equiv in E. done. }
    rewrite bool_decide_eq_true_2 by done. simpl.
    destruct (decide (m_Model m ∈ F)) as [Hin|Hout].
    + rewrite bool_decide_eq_true_2 by done. simpl.
      rewrite decide_True; [done|by right].
    + rewrite bool_decide_eq_false_2 by done. simpl.
      rewrite decide_False; [done|]. intros [?|?]; done.
Qed.

Lemma tags_fold_filter acc C :
  foldl (tags_step F) acc C = acc ++ (tags_entry <$> filter (passes F) C).
Proof.
  revert acc. induction C as [|m C IH]; intros acc; simpl.
  - by rewrite app_nil_r.
  - rewrite IH, tags_step_passes, filter_cons.
    destruct (decide (passes F m)); simpl; [|done].
    by rewrite <- app_assoc.
Qed.

Lemma tags_listing_filter C :
  tags_listing F C = tags_entry <$> filter (passes F) C.
Proof. unfold tags_listing. by rewrite tags_fold_filter. Qed.

End Catalog.


(** ** The model filter *)

Section FilterFacts.

Import Filter.

Lemma scan_fits (ls : list string) :
  Forall (λ l, too_long l = false) ls → scan ls = (dropCR <$> ls, None).
Proof.
  induction 1 as [|l ls Hl _ IH]; simpl; [done|].
  by rewrite Hl, IH.
Qed.

Lemma elem_of_add_lines (x : string) (toks : list string) (acc : gset string) :
  x ∈ foldl add_line acc toks ↔
  x ∈ acc ∨ (x ≠ "" ∧ ∃ t, t ∈ toks ∧ x = TrimSpace t).
Proof.
  revert acc. induction toks as [|t toks IH]; intros acc; simpl.
  - split; [by left|]. intros [?|(_ & t & Ht & _)]; [done|]. by inversion Ht.
  - rewrite IH. unfold add_line. split.
    + intros [Hacc|(Hne & t' & Ht' & ->)].
      * destruct (decide (TrimSpace t = "")) as [E|E]; [by left|].
        apply elem_of_union in Hacc as [Hx|Hx]; [|by left].
        apply elem_of_singleton in Hx. subst x.
        right. split; [done|]. exists t. split; [apply list_elem_of_here|done].
      * right. split; [done|]. exists t'. split; [by apply list_elem_of_further|done].
    + intros [Hacc|(Hne & t' & Ht' & ->)].
      * left. destruct (decide (TrimSpace t = "")); [done|].
        apply elem_of_union. by right.
      * apply elem_of_cons in Ht' as [->|Ht'].
        -- left. rewrite decide_False by done.
           apply elem_of_union. left. by apply elem_of_singleton.
        -- right. split; [done|]. by exists t'.
Qed.

End FilterFacts.

(** C7 (as the code has it). For a file content whose lines all fit the
    scanner's buffer, loading succeeds and yields exactly the set of the
    white-space-trimmed lines that are not empty: a string is a member iff
    it is not empty and is the trimmed form of some line of the file. Being a
    set, the result holds a line once however often the file repeats it.
    Lines starting with [#] get no special treatment: trimmed, they are
    members like any other line. *)
Theorem loadModelFilter_trimmed_nonempty_lines (content : string) :
  Forall (λ l, Filter.too_long l = false) (Filter.raw_lines EmptyString content) →
  ∃ F : gset string,
    Filter.loadModelFilter (Some content) = Ok F
    ∧ (∀ x, x ∈ F ↔
            x ≠ "" ∧ ∃ l, l ∈ file_lines content ∧ x = Filter.TrimSpace l)
    ∧ (∀ l, l ∈ file_lines content →
            String.prefix "#" (Filter.TrimSpace l) = true →
            Filter.TrimSpace l ∈ F).
Proof.
  intros Hfit. unfold Filter.loadModelFilter, Filter.Scanner.
  rewrite (scan_fits _ Hfit). eexists. split; [reflexivity|].
  assert (∀ x, x ∈ foldl Filter.add_line (∅ : gset string)
                     (Filter.dropCR <$> Filter.raw_lines EmptyString content)
               ↔ x ≠ "" ∧ ∃ l, l ∈ file_lines content ∧ x = Filter.TrimSpace l)
    as Hmem.
  { intros x. rewrite elem_of_add_lines. unfold file_lines.
    split; [intros [Hx|?]; [by apply not_elem_of_empty in Hx|done] | by right]. }
  split; [exact Hmem|].
  intros l Hl Hhash. apply Hmem. split; [|by exists l].
  intros E. rewrite E in Hhash. discriminate.
Qed.

(** ** The receive loop *)

Section Loop.

Variable clock : nat → string.
Variable fullModelName : string.

Lemma relayed_length t ds : length (relayed clock fullModelName t ds) = length ds.
Proof. revert t. induction ds; intros; simpl; [done|]. by rewrite IHds. Qed.

Lemma relayed_done t ds :
  done_flag <$> relayed clock fullModelName t ds = replicate (length ds) (Some false).
Proof. revert t. induction ds; intros; simpl; [done|]. by rewrite IHds. Qed.

Lemma relayed_content t ds :
  Forall has_choice ds →
  content_of <$> relayed clock fullModelName t ds = fragment <$> ds.
Proof.
  intros H. revert t. induction H as [|d ds Hd _ IH]; intros t; simpl; [done|].
  rewrite IH. f_equal. unfold fragment.
  destruct d as [[|c cs]]; [by destruct Hd|done].
Qed.

Lemma relayed_newline t ds :
  Forall (λ x, newline x = true) (relayed clock fullModelName t ds).
Proof. revert t. induction ds; intros; simpl; constructor; auto. Qed.

Lemma relayed_chat_frames t ds :
  Forall (λ x, done_flag x = Some false ∧ chat_frame fullModelName x)
    (relayed clock fullModelName t ds).
Proof.
  revert t. induction ds as [|d ds IH]; intros t; simpl; constructor; [|apply IH].
  repeat split; first [done | by eexists].
Qed.

(** With every delta carrying a choice, the loop relays them all and then
    acts on the stream's ending. *)
Lemma recv_loop_relays ending ds last w :
  Forall has_choice ds →
  ∃ w', recv_loop clock fullModelName ending ds last w
        = recv_loop clock fullModelName ending [] (remembered last ds) w'
      ∧ body w' = body w ++ relayed clock fullModelName (ticks w) ds
      ∧ ticks w' = (ticks w + length ds)%nat
      ∧ handles w' = handles w
      ∧ calls w' = calls w
      ∧ (ds ≠ [] → status w' = commit StatusOK w)
      ∧ (ds = [] → w' = w).
Proof.
  intros H. revert last w.
  induction H as [|d ds Hd _ IH]; intros last w.
  - exists w. simpl. rewrite app_nil_r, Nat.add_0_r. done.
  - destruct d as [[|c cs]]; [by destruct Hd|].
    cbn [recv_loop now StreamChoices lookup list_lookup].
    edestruct IH as (w' & -> & Hb & Ht & Hh & Hc & Hs & He).
    exists w'. split; [reflexivity|].
    simpl in Hb, Ht, Hh, Hc. rewrite Hb, Ht, Hh, Hc.
    rewrite <- app_assoc. split_and!; try done; try (simpl; lia).
    intros _. destruct ds as [|d' ds'].
    + rewrite (He eq_refl). by destruct w as [[?|] ? ? ? ? ? ?].
    + rewrite Hs by done. by destruct w as [[?|] ? ? ? ? ? ?].
Qed.

(** Whatever the deltas and the ending, the loop only appends to the body,
    and what it appends are [done:false] frames for the resolved model,
    followed by an error object at most; it neither opens nor closes a
    stream and calls no provider method. *)
Lemma recv_loop_writes ending ds last w :
  ∃ new, body (recv_loop clock fullModelName ending ds last w).2 = body w ++ new
       ∧ Forall (λ x, (done_flag x = Some false ∧ chat_frame fullModelName x)
                      ∨ error_object x) new
       ∧ handles (recv_loop clock fullModelName ending ds last w).2 = handles w
       ∧ calls (recv_loop clock fullModelName ending ds last w).2 = calls w.
Proof.
  revert last w. induction ds as [|d ds IH]; intros last w.
  - destruct ending as [|e]; simpl.
    + exists []. by rewrite app_nil_r.
    + exists [line (errorMsg e)]. split_and!; try done.
      constructor; [|done]. right. by eexists.
  - destruct d as [[|c cs]]; cbn [recv_loop now StreamChoices lookup list_lookup].
    + exists []. simpl. by rewrite app_nil_r.
    + edestruct IH as (new & -> & Hnew & -> & ->). simpl.
      eexists (_ :: new). rewrite <- app_assoc. split_and!; try done.
      constructor; [|done]. left. repeat split; first [done | by eexists].
Qed.

End Loop.

(** ** The chat route, path by path *)

Lemma emitted_app (w w' : World) (new : list Written) :
  body w' = body w ++ new → emitted w w' = new.
Proof. intros E. unfold emitted. rewrite E. apply drop_app_length. Qed.

Section Chat.

Variable clock : nat → string.
Variable s : Server.

(** A stream that ends normally, every delta carrying a choice: one frame
    per delta, then the final frame. *)
Lemma chat_relay_eof full ds w :
  Forall has_choice ds →
  ∃ w', chat_relay clock full {| pending := ds; ending := EOF |} w = (Returned, w')
      ∧ body w' = body w ++ relayed clock full (ticks w) ds
                    ++ [line (finalResponse full (clock (ticks w + length ds))
                                (final_reason ds))]
      ∧ handles w' = handles w
      ∧ calls w' = calls w
      ∧ status w' = commit StatusOK w.
Proof.
  intros Hds. unfold chat_relay. cbn [pending ending].
  set (w0 := Header_Set _ _ (Header_Set _ _ (Header_Set _ _ w))).
  destruct (recv_loop_relays clock full EOF ds "" w0 Hds)
    as (w' & -> & Hb & Ht & Hh & Hc & Hs & He).
  cbn [recv_loop now]. eexists. split; [reflexivity|].
  simpl in Hb, Ht, Hh, Hc. simpl. rewrite Hb, Ht, Hh, Hc.
  rewrite <- app_assoc. split_and!; try done.
  assert (status w' = status w ∨ status w' = commit StatusOK w) as Hst.
  { destruct ds; [left; by rewrite (He eq_refl) | right; by rewrite Hs]. }
  clear Hs He. cbv [commit tick Fprintf_line Flush status] in *.
  destruct Hst as [-> | ->]; by destruct w as [[?|] ? ? ? ? ? ?].
Qed.

(** A stream that fails after deltas that each carry a choice: one frame per
    delta, then the error frame, and the handler returns. *)
Lemma chat_relay_failure full ds e w :
  Forall has_choice ds →
  ∃ w', chat_relay clock full {| pending := ds; ending := Failure e |} w
        = (Returned, w')
      ∧ body w' = body w ++ relayed clock full (ticks w) ds ++ [line (errorMsg e)]
      ∧ handles w' = handles w
      ∧ calls w' = calls w
      ∧ status w' = commit StatusOK w.
Proof.
  intros Hds. unfold chat_relay. cbn [pending ending].
  set (w0 := Header_Set _ _ (Header_Set _ _ (Header_Set _ _ w))).
  destruct (recv_loop_relays clock full (Failure e) ds "" w0 Hds)
    as (w' & -> & Hb & Ht & Hh & Hc & Hs & He).
  cbn [recv_loop]. eexists. split; [reflexivity|].
  simpl in Hb, Ht, Hh, Hc. simpl. rewrite Hb, Hh, Hc.
  rewrite <- app_assoc. split_and!; try done.
  assert (status w' = status w ∨ status w' = commit StatusOK w) as Hst.
  { destruct ds; [left; by rewrite (He eq_refl) | right; by rewrite Hs]. }
  clear Hs He. cbv [commit tick Fprintf_line Flush status] in *.
  destruct Hst as [-> | ->]; by destruct w as [[?|] ? ? ? ? ? ?].
Qed.

(** With a failing stream the loop is never left by [break]. *)
Lemma recv_loop_failure_no_break full e ds last w l :
  (recv_loop clock full (Failure e) ds last w).1 ≠ Break l.
Proof.
  revert last w. induction ds as [|d ds IH]; intros last w; [done|].
  destruct d as [[|c cs]]; cbn [recv_loop now StreamChoices lookup list_lookup];
    [done|apply IH].
Qed.

(** Whatever the stream, the relay only appends chat frames of the resolved
    model and error objects, and leaves the stream handle and the call log
    alone; when the stream fails, no appended frame says [done:true]. *)
Lemma chat_relay_writes full stream w :
  ∃ new, body (chat_relay clock full stream w).2 = body w ++ new
       ∧ Forall (λ x, chat_frame full x ∨ error_object x) new
       ∧ ((∃ e, ending stream = Failure e) →
          Forall (λ x, done_flag x ≠ Some true) new)
       ∧ handles (chat_relay clock full stream w).2 = handles w
       ∧ calls (chat_relay clock full stream w).2 = calls w.
Proof.
  unfold chat_relay.
  set (w0 := Header_Set _ _ (Header_Set _ _ (Header_Set _ _ w))).
  destruct (recv_loop_writes clock full (ending stream) (pending stream) "" w0)
    as (new & Hb & Hnew & Hh & Hc).
  pose proof (recv_loop_failure_no_break full) as Hnb.
  destruct (recv_loop clock full (ending stream) (pending stream) "" w0)
    as [[l| |msg] w1] eqn:E; simpl in Hb, Hh, Hc.
  - exists (new ++ [line (finalResponse full (clock (ticks w1))
                            (if decide (l = "") then "stop" else l))]).
    simpl. rewrite Hb, Hh, Hc. rewrite app_assoc. split_and!; try done.
    + apply Forall_app. split.
      * eapply Forall_impl; [exact Hnew|]. intros x [[_ ?]|?]; auto.
      * constructor; [|done]. left. repeat split; first [done | by eexists].
    + intros [e He]. exfalso. rewrite He in E.
      eapply (Hnb e (pending stream) "" w0 l). by rewrite E.
  - exists new. simpl. split_and!; try done.
    + eapply Forall_impl; [exact Hnew|]. intros x [[_ ?]|?]; auto.
    + intros _. eapply Forall_impl; [exact Hnew|].
      intros x [[-> _]|[e' He']]; [done|].
      unfold done_flag. by rewrite He'.
  - exists new. simpl. split_and!; try done.
    + eapply Forall_impl; [exact Hnew|]. intros x [[_ ?]|?]; auto.
    + intros _. eapply Forall_impl; [exact Hnew|].
      intros x [[-> _]|[e' He']]; [done|].
      unfold done_flag. by rewrite He'.
Qed.

End Chat.

(** ** The chat route, request by request *)

Section ChatPaths.

Variable clock : nat → string.
Variable s : Server.
Variable request : ChatRequest.
Variable w : World.

(** The non-streaming branch, by what the backend answers. *)
Lemma chat_once_cases :
  chat_once clock s request w =
  match GetFullModelName (provider s) (req_Model request) with
  | Err e =>
      (Returned,
       c_JSON StatusNotFound (H_error e)
         (call (CallGetFullModelName (req_Model request)) w))
  | Ok full =>
      let w1 := call (CallChat (req_Messages request) full)
                  (call (CallGetFullModelName (req_Model request)) w) in
      match Chat (provider s) (req_Messages request) full with
      | Err e => (Returned, c_JSON StatusInternalServerError (H_error e) w1)
      | Ok response =>
          match Choices response with
          | [] =>
              (Returned,
               c_JSON StatusInternalServerError
                 (H_error "No response from model") w1)
          | choice :: _ =>
              (Returned,
               c_JSON StatusOK
                 (ollamaResponse full (clock (ticks w))
                    (Content (Message choice))
                    (if decide (FinishReason choice = "") then "stop"
                     else FinishReason choice)
                    (ResponseUsage response)) (tick w1))
          end
      end
  end.
Proof.
  unfold chat_once.
  destruct (GetFullModelName _ _) as [full|e]; [|done].
  destruct (Chat _ _ _) as [response|e]; [|done].
  destruct (Choices response) as [|choice rest]; [done|].
  cbn. by destruct (decide (Content (Message choice) = "")) as [->|].
Qed.

(** The streaming branch, once the stream is open. *)
Lemma chat_stream_open full stream :
  GetFullModelName (provider s) (req_Model request) = Ok full →
  ChatStream (provider s) (req_Messages request) full = Ok stream →
  chat_stream clock s request w =
  let w1 := opened (call (CallChatStream (req_Messages request) full)
                      (call (CallGetFullModelName (req_Model request)) w)) in
  ((chat_relay clock full stream w1).1, Close (chat_relay clock full stream w1).2).
Proof.
  intros Hfull Hstream. unfold chat_stream. rewrite Hfull, Hstream.
  cbn zeta. by destruct (chat_relay _ _ _ _).
Qed.



End ChatPaths.

(** ** The [done] invariant *)

(** C1 (as the code has it). The [done] flags of what the chat route writes,
    path by path. When the backend does not fail (the alias resolves and,
    without streaming, the completion has a choice or, with streaming, the
    stream opens, its deltas each carry a choice and it ends in end of
    stream), the response ends with exactly one [done:true] frame, preceded
    in the streaming case by one [done:false] frame per delta and nothing
    else. On the backend-error paths (alias not resolved, chat call failed,
    no choice, stream not opened, error received from the stream) an error
    object is written and no [done:true] frame. *)
Theorem chat_done_flags (clock : nat → string) (s : Server)
    (request : ChatRequest) (w : World) :
  let w' := (chat_handler clock s (BindOk request) w).2 in
  let flags := done_flag <$> emitted w w' in
  match GetFullModelName (provider s) (req_Model request) with
  | Err _ => flags = [None]
  | Ok full =>
      if default true (req_Stream request) then
        match ChatStream (provider s) (req_Messages request) full with
        | Err _ => flags = [None]
        | Ok stream =>
            Forall has_choice (pending stream) →
            match ending stream with
            | EOF =>
                flags = replicate (length (pending stream)) (Some false)
                          ++ [Some true]
            | Failure _ =>
                flags = replicate (length (pending stream)) (Some false)
                          ++ [None]
            end
        end
      else
        match Chat (provider s) (req_Messages request) full with
        | Err _ => flags = [None]
        | Ok response =>
            flags = [if decide (Choices response = []) then None else Some true]
        end
  end.
Proof.
  cbn zeta. unfold chat_handler.
  destruct (default true (req_Stream request)) eqn:Hs; cbn [negb].
  - destruct (GetFullModelName (provider s) (req_Model request))
      as [full|e] eqn:Hfull.
    + destruct (ChatStream (provider s) (req_Messages request) full)
        as [[ds fin]|e] eqn:Hstream.
      * cbn [pending ending]. intros Hds.
        rewrite (chat_stream_open _ _ _ _ _ _ Hfull Hstream). cbn zeta.
        set (w1 := opened _).
        destruct fin as [|e].
        -- destruct (chat_relay_eof clock full ds w1 Hds)
             as (w' & -> & Hb & _).
           erewrite emitted_app by (simpl; exact Hb).
           rewrite fmap_app, relayed_done. done.
        -- destruct (chat_relay_failure clock full ds e w1 Hds)
             as (w' & -> & Hb & _).
           erewrite emitted_app by (simpl; exact Hb).
           rewrite fmap_app, relayed_done. done.
      * unfold chat_stream. rewrite Hfull, Hstream.
        by erewrite emitted_app by reflexivity.
    + unfold chat_stream. rewrite Hfull.
      by erewrite emitted_app by reflexivity.
  - rewrite chat_once_cases.
    destruct (GetFullModelName _ _) as [full|e];
      [|by erewrite emitted_app by reflexivity].
    cbn zeta. destruct (Chat _ _ _) as [response|e];
      [|by erewrite emitted_app by reflexivity].
    destruct (Choices response); by erewrite emitted_app by reflexivity.
Qed.

Lemma chat_done_flags_witness :
  Forall has_choice (pending ex_hello)
  ∧ done_flag <$> emitted pristine
      (chat_handler ex_clock (ex_server ex_hello)
         (BindOk (ex_request "gpt-4o-mini" None)) pristine).2
    = [Some false; Some false; Some true].
Proof.
  assert (Forall has_choice (pending ex_hello)) as H
    by (repeat constructor; discriminate).
  split; [exact H|].
  exact (chat_done_flags ex_clock (ex_server ex_hello)
           (ex_request "gpt-4o-mini" None) pristine H).
Defined.

(** C1 as stated fails on the backend-error paths: when the stream breaks
    after the delta "He", the response is a [done:false] frame and an error
    frame, and no frame says [done:true]. *)
Lemma chat_broken_stream_has_no_done_true :
  ChatStream (provider (ex_server ex_broken)) (req_Messages (ex_request "gpt-4o-mini" None))
    "openai/gpt-4o-mini" = Ok ex_broken
  ∧ done_flag <$> emitted pristine
      (chat_handler ex_clock (ex_server ex_broken)
         (BindOk (ex_request "gpt-4o-mini" None)) pristine).2
    = [Some false; None]
  ∧ ¬ ∃ x, x ∈ emitted pristine
             (chat_handler ex_clock (ex_server ex_broken)
                (BindOk (ex_request "gpt-4o-mini" None)) pristine).2
           ∧ done_flag x = Some true.
Proof.
  split; [reflexivity|]. split; [reflexivity|].
  intros (x & Hx & Hdone). vm_compute in Hx.
  apply elem_of_cons in Hx as [->|Hx]; [discriminate|].
  apply elem_of_cons in Hx as [->|Hx]; [discriminate|].
  by apply not_elem_of_nil in Hx.
Qed.

(** ** Streaming: one frame per delta *)

(** For a stream whose deltas each carry a choice and which ends in end of
    stream, the streaming branch writes one [done:false] frame per delta, in
    arrival order, each with its delta's content fragment, and then the one
    [done:true] frame; every frame ends in a line feed. *)
Lemma chat_stream_relays_every_delta (clock : nat → string) (s : Server)
    (request : ChatRequest) (w : World) (full : string)
    (ds : list ChatCompletionStreamResponse) :
  GetFullModelName (provider s) (req_Model request) = Ok full →
  ChatStream (provider s) (req_Messages request) full
    = Ok {| pending := ds; ending := EOF |} →
  Forall has_choice ds →
  ∃ frames final,
    emitted w (chat_stream clock s request w).2 = frames ++ [final]
    ∧ (chat_stream clock s request w).1 = Returned
    ∧ done_flag <$> frames = replicate (length ds) (Some false)
    ∧ content_of <$> frames = fragment <$> ds
    ∧ done_flag final = Some true
    ∧ finish_reason_of final = Some (final_reason ds)
    ∧ Forall (λ x, newline x = true) (frames ++ [final]).
Proof.
  intros Hfull Hstream Hds.
  rewrite (chat_stream_open _ _ _ _ _ _ Hfull Hstream). cbn zeta.
  set (w1 := opened _).
  destruct (chat_relay_eof clock full ds w1 Hds) as (w' & -> & Hb & _).
  eexists _, _. split; [by apply emitted_app|].
  split_and!; try done.
  - apply relayed_done.
  - by apply relayed_content.
  - apply Forall_app. split; [apply relayed_newline|by constructor].
Qed.

(** C2 (where the code departs from it). The backend yields the deltas "He",
    one without choices, "llo", then end of stream: the handler writes the
    frame for "He" and panics on the second delta. The third delta gets no
    frame and there is no [done:true] line. *)
Theorem chat_gapped_stream_stops_early :
  let r := chat_handler ex_clock (ex_server ex_gapped)
             (BindOk (ex_request "gpt-4o-mini" None)) pristine in
  length (pending ex_gapped) = 3%nat
  ∧ r.1 = Panicked index_panic
  ∧ content_of <$> emitted pristine r.2 = [Some "He"]
  ∧ done_flag <$> emitted pristine r.2 = [Some false].
Proof. cbn zeta. split_and!; reflexivity. Qed.

(** C9 (where the code departs from it). On a delta whose choices list is
    empty the loop reads [response.Choices[0]] all the same: it panics with
    an index out of range, whatever came before and whatever would follow,
    and so does the handler part that runs it. *)
Theorem recv_loop_panics_without_choice (clock : nat → string)
    (fullModelName : string) (fin : StreamEnd)
    (rest : list ChatCompletionStreamResponse) (last : string) (w : World) :
  recv_loop clock fullModelName fin ({| StreamChoices := [] |} :: rest) last w
    = (Panic index_panic, tick w)
  ∧ (chat_relay clock fullModelName
       {| pending := {| StreamChoices := [] |} :: rest; ending := fin |} w).1
    = Panicked index_panic.
Proof. split; reflexivity. Qed.

(** ** Streams that fail *)



(** ** Model name and role of the chat frames *)

(** C10. Once the alias has resolved to [full], everything the chat route
    writes is either an error object (it has no [done] flag) or a chat frame,
    that is an object with a [done] flag: the non-streaming answer, a
    [done:false] frame or the [done:true] frame. In every chat frame the
    model field is [full], the resolved identifier, so it is not the alias
    of the request unless the two coincide, and the role of the message is
    "assistant". *)
Theorem chat_frames_name_resolved_model (clock : nat → string) (s : Server)
    (request : ChatRequest) (w : World) (full : string) :
  GetFullModelName (provider s) (req_Model request) = Ok full →
  Forall (λ x, (error_object x ∧ done_flag x = None)
               ∨ (is_Some (done_flag x)
                  ∧ model_of x = Some full
                  ∧ (full ≠ req_Model request →
                     model_of x ≠ Some (req_Model request))
                  ∧ role_of x = Some "assistant"))
    (emitted w (chat_handler clock s (BindOk request) w).2).
Proof.
  intros Hfull.
  assert (∀ x, chat_frame full x ∨ error_object x →
               (error_object x ∧ done_flag x = None)
               ∨ (is_Some (done_flag x) ∧ model_of x = Some full
                  ∧ (full ≠ req_Model request →
                     model_of x ≠ Some (req_Model request))
                  ∧ role_of x = Some "assistant")) as Hcase.
  { intros x [(Hd & Hm & Hr)|[e He]].
    - right. split_and!; try done. rewrite Hm. congruence.
    - left. split; [by exists e|]. unfold done_flag. by rewrite He. }
  unfold chat_handler. destruct (negb _).
  - rewrite chat_once_cases, Hfull. cbn zeta.
    destruct (Chat _ _ _) as [response|e].
    + destruct (Choices response) as [|choice rest];
        erewrite emitted_app by reflexivity;
        (constructor; [|done]); apply Hcase.
      * right. by eexists.
      * left. repeat split; first [done | by eexists].
    + erewrite emitted_app by reflexivity.
      constructor; [|done]. apply Hcase. right. by eexists.
  - destruct (ChatStream (provider s) (req_Messages request) full)
      as [stream|e] eqn:Hstream.
    + rewrite (chat_stream_open _ _ _ _ _ _ Hfull Hstream). cbn zeta.
      set (w1 := opened _).
      destruct (chat_relay_writes clock full stream w1) as (new & Hb & Hnew & _).
      erewrite emitted_app by (simpl; exact Hb).
      eapply Forall_impl; [exact Hnew|]. exact Hcase.
    + unfold chat_stream. rewrite Hfull, Hstream.
      erewrite emitted_app by reflexivity.
      constructor; [|done]. apply Hcase. right. by eexists.
Qed.

Lemma chat_frames_name_resolved_model_witness :
  GetFullModelName (provider (ex_server ex_hello)) "gpt-4o-mini"
    = Ok "openai/gpt-4o-mini"
  ∧ model_of <$> emitted pristine
      (chat_handler ex_clock (ex_server ex_hello)
         (BindOk (ex_request "gpt-4o-mini" None)) pristine).2
    = replicate 3 (Some "openai/gpt-4o-mini")
  ∧ Forall (λ x, (error_object x ∧ done_flag x = None)
                 ∨ (is_Some (done_flag x)
                    ∧ model_of x = Some "openai/gpt-4o-mini"
                    ∧ ("openai/gpt-4o-mini" ≠ "gpt-4o-mini" →
                       model_of x ≠ Some "gpt-4o-mini")
                    ∧ role_of x = Some "assistant"))
      (emitted pristine
         (chat_handler ex_clock (ex_server ex_hello)
            (BindOk (ex_request "gpt-4o-mini" None)) pristine).2).
Proof.
  split; [reflexivity|]. split; [reflexivity|].
  exact (chat_frames_name_resolved_model ex_clock (ex_server ex_hello)
           (ex_request "gpt-4o-mini" None) pristine "openai/gpt-4o-mini"
           eq_refl).
Defined.

(** ** Status codes of the chat route *)

Lemma mul64_exact (a b : Z) :
  - 2 ^ 63 ≤ a * b < 2 ^ 63 → mul64 a b = a * b.
Proof.
  intros H. unfold mul64, wrap64.
  rewrite Z.mod_small by lia. lia.
Qed.

(** C4 (as the code has it). On a fresh response: an alias that does not
    resolve is answered with 404, with and without streaming. Of the other
    backend failures, those met before the response has begun are answered
    with 500: the chat call failing, a completion without choices, the
    stream failing to open. An error received from the opened stream is not:
    the status is 200 and the error object is the last line of the body. *)
Theorem chat_failure_status (clock : nat → string) (s : Server)
    (request : ChatRequest) (w : World) :
  status w = None →
  let r := chat_handler clock s (BindOk request) w in
  match GetFullModelName (provider s) (req_Model request) with
  | Err _ => status r.2 = Some StatusNotFound
  | Ok full =>
      if default true (req_Stream request) then
        match ChatStream (provider s) (req_Messages request) full with
        | Err _ => status r.2 = Some StatusInternalServerError
        | Ok stream =>
            Forall has_choice (pending stream) →
            ∀ e, ending stream = Failure e →
                 status r.2 = Some StatusOK
                 ∧ last (emitted w r.2) = Some (line (errorMsg e))
        end
      else
        match Chat (provider s) (req_Messages request) full with
        | Err _ => status r.2 = Some StatusInternalServerError
        | Ok response =>
            Choices response = [] →
            status r.2 = Some StatusInternalServerError
        end
  end.
Proof.
  intros Hw. cbn zeta. unfold chat_handler.
  destruct (default true (req_Stream request)); cbn [negb].
  - destruct (GetFullModelName (provider s) (req_Model request))
      as [full|e0] eqn:Hfull.
    + destruct (ChatStream (provider s) (req_Messages request) full)
        as [[ds fin]|e0] eqn:Hstream.
      * cbn [pending ending]. intros Hds e ->.
        rewrite (chat_stream_open _ _ _ _ _ _ Hfull Hstream). cbn zeta.
        set (w1 := opened _).
        destruct (chat_relay_failure clock full ds e w1 Hds)
          as (w' & -> & Hb & _ & _ & Hst).
        split.
        -- simpl. rewrite Hst. unfold commit. simpl. by rewrite Hw.
        -- erewrite emitted_app by (simpl; exact Hb). apply last_snoc.
      * unfold chat_stream. rewrite Hfull, Hstream. simpl.
        unfold commit. simpl. by rewrite Hw.
    + unfold chat_stream. rewrite Hfull. simpl.
      unfold commit. simpl. by rewrite Hw.
  - rewrite chat_once_cases.
    destruct (GetFullModelName _ _) as [full|e0].
    + cbn zeta. destruct (Chat _ _ _) as [response|e0].
      * intros ->. simpl. unfold commit. simpl. by rewrite Hw.
      * simpl. unfold commit. simpl. by rewrite Hw.
    + simpl. unfold commit. simpl. by rewrite Hw.
Qed.

Lemma chat_failure_status_witness :
  status pristine = None
  ∧ status (chat_handler ex_clock (ex_server ex_hello)
              (BindOk (ex_request "llama3" (Some false))) pristine).2
    = Some StatusNotFound.
Proof.
  split; [reflexivity|].
  exact (chat_failure_status ex_clock (ex_server ex_hello)
           (ex_request "llama3" (Some false)) pristine eq_refl).
Defined.

(** C4 as stated fails for a failure of the opened stream: the backend
    stream breaks after the delta "He", and the status of the response is
    200, not 500. *)
Lemma chat_broken_stream_status_is_200 :
  GetFullModelName (provider (ex_server ex_broken)) "gpt-4o-mini"
    = Ok "openai/gpt-4o-mini"
  ∧ ending ex_broken = Failure "connection reset"
  ∧ status (chat_handler ex_clock (ex_server ex_broken)
              (BindOk (ex_request "gpt-4o-mini" (Some true))) pristine).2
    = Some StatusOK
  ∧ status (chat_handler ex_clock (ex_server ex_broken)
              (BindOk (ex_request "gpt-4o-mini" (Some true))) pristine).2
    ≠ Some StatusInternalServerError.
Proof. split_and!; [reflexivity..|discriminate]. Qed.

(** ** The non-streaming answer *)

(** C6 (as the code has it). A request with [stream:false] whose alias has
    resolved, on a fresh response. If the chat call fails or the completion
    has no choice, the answer is 500 with an error object. Otherwise it is
    200 with exactly one JSON object, whose [done] is true, whose message
    content is the first choice's content, whose [finish_reason] is the
    first choice's, or "stop" when that is empty, and whose durations are
    the token counts times 10 in Go's [int] arithmetic: [total_duration]
    from the total tokens, [eval_duration] from the completion tokens. *)
Theorem chat_once_answer (clock : nat → string) (s : Server)
    (request : ChatRequest) (w : World) (full : string) :
  status w = None →
  req_Stream request = Some false →
  GetFullModelName (provider s) (req_Model request) = Ok full →
  let r := chat_handler clock s (BindOk request) w in
  match Chat (provider s) (req_Messages request) full with
  | Err _ =>
      status r.2 = Some StatusInternalServerError
      ∧ done_flag <$> emitted w r.2 = [None]
  | Ok response =>
      match Choices response with
      | [] =>
          status r.2 = Some StatusInternalServerError
          ∧ done_flag <$> emitted w r.2 = [None]
      | choice :: _ =>
          let usage := ResponseUsage response in
          r.1 = Returned
          ∧ status r.2 = Some StatusOK
          ∧ ∃ x, emitted w r.2 = [x]
              ∧ done_flag x = Some true
              ∧ content_of x = Some (Content (Message choice))
              ∧ finish_reason_of x
                = Some (if decide (FinishReason choice = "") then "stop"
                        else FinishReason choice)
              ∧ field "total_duration" (payload x)
                = Some (JInt (mul64 (TotalTokens usage) 10))
              ∧ field "eval_duration" (payload x)
                = Some (JInt (mul64 (CompletionTokens usage) 10))
              ∧ (- 2 ^ 63 ≤ TotalTokens usage * 10 < 2 ^ 63 →
                 field "total_duration" (payload x)
                 = Some (JInt (TotalTokens usage * 10)))
              ∧ (- 2 ^ 63 ≤ CompletionTokens usage * 10 < 2 ^ 63 →
                 field "eval_duration" (payload x)
                 = Some (JInt (CompletionTokens usage * 10)))
      end
  end.
Proof.
  intros Hw Hs Hfull. cbn zeta. unfold chat_handler. rewrite Hs. cbn [default negb].
  rewrite chat_once_cases, Hfull. cbn zeta.
  destruct (Chat _ _ _) as [response|e].
  - destruct (Choices response) as [|choice rest].
    + split; [simpl; unfold commit; simpl; by rewrite Hw|].
      by erewrite emitted_app by reflexivity.
    + split; [done|]. split; [simpl; unfold commit; simpl; by rewrite Hw|].
      eexists. split; [by apply emitted_app|].
      split_and!; try reflexivity.
      * intros H. rewrite <- (mul64_exact _ _ H). reflexivity.
      * intros H. rewrite <- (mul64_exact _ _ H). reflexivity.
  - split; [simpl; unfold commit; simpl; by rewrite Hw|].
    by erewrite emitted_app by reflexivity.
Qed.

Lemma chat_once_answer_witness :
  status pristine = None
  ∧ req_Stream (ex_request "gpt-4o-mini" (Some false)) = Some false
  ∧ GetFullModelName (provider (ex_server ex_hello)) "gpt-4o-mini"
    = Ok "openai/gpt-4o-mini"
  ∧ status (chat_handler ex_clock (ex_server ex_hello)
              (BindOk (ex_request "gpt-4o-mini" (Some false))) pristine).2
    = Some StatusOK
  ∧ ∃ x, emitted pristine
           (chat_handler ex_clock (ex_server ex_hello)
              (BindOk (ex_request "gpt-4o-mini" (Some false))) pristine).2 = [x]
       ∧ done_flag x = Some true
       ∧ content_of x = Some "hello"
       ∧ finish_reason_of x = Some "stop"
       ∧ field "total_duration" (payload x) = Some (JInt 80)
       ∧ field "eval_duration" (payload x) = Some (JInt 50).
Proof.
  split_and!; [reflexivity..| |].
  - exact (proj1 (proj2 (chat_once_answer ex_clock (ex_server ex_hello)
             (ex_request "gpt-4o-mini" (Some false)) pristine
             "openai/gpt-4o-mini" eq_refl eq_refl eq_refl))).
  - destruct (proj2 (proj2 (chat_once_answer ex_clock (ex_server ex_hello)
             (ex_request "gpt-4o-mini" (Some false)) pristine
             "openai/gpt-4o-mini" eq_refl eq_refl eq_refl)))
      as (x & Hx & Hd & Hc & Hf & Ht & He & _).
    exists x. split_and!; [exact Hx|exact Hd|exact Hc|exact Hf|exact Ht|exact He].
Defined.

(** C6 as stated fails for an alias that does not resolve: the request has
    [stream:false], the answer is 404 with an error object, neither a 500
    nor an object with [done:true]. *)
Lemma chat_once_unknown_alias_is_404 :
  req_Stream (ex_request "llama3" (Some false)) = Some false
  ∧ GetFullModelName (provider (ex_server ex_hello)) "llama3"
    = Err "model not found"
  ∧ status (chat_handler ex_clock (ex_server ex_hello)
              (BindOk (ex_request "llama3" (Some false))) pristine).2
    = Some StatusNotFound
  ∧ payload <$> emitted pristine
      (chat_handler ex_clock (ex_server ex_hello)
         (BindOk (ex_request "llama3" (Some false))) pristine).2
    = [H_error "model not found"]
  ∧ done_flag <$> emitted pristine
      (chat_handler ex_clock (ex_server ex_hello)
         (BindOk (ex_request "llama3" (Some false))) pristine).2
    = [None].
Proof. split_and!; reflexivity. Qed.

(** ** Requests refused before any backend call *)

Section ScanLengths.

Import json.

Local Open Scope nat_scope.

Lemma skip_ws_length s : String.length (skip_ws s) ≤ String.length s.
Proof. induction s as [|c s IH]; simpl; [done|]. destruct (isSpace c); simpl; lia. Qed.

Lemma skip_ws_cons s c r :
  skip_ws s = String c r → String.length r < String.length s.
Proof.
  intros H. pose proof (skip_ws_length s) as Hl. rewrite H in Hl. simpl in Hl. lia.
Qed.

Lemma scan_string_length seen s raw r :
  scan_string seen s = Some (raw, r) → String.length r < String.length s.
Proof.
  assert (∀ n s seen, String.length s ≤ n →
            scan_string seen s = Some (raw, r) →
            String.length r < String.length s) as H; [|by apply (H _ _ _ (le_n _))].
  clear. induction n as [|n IH]; intros s seen Hn H.
  - destruct s; [done|simpl in Hn; lia].
  - destruct s as [|c s]; [done|]. simpl in H, Hn.
    repeat case_match; simplify_eq; simpl in *; try lia;
      match goal with
      | H : scan_string _ ?t = Some _ |- _ =>
          apply IH in H; simpl in *; lia
      end.
Qed.

Lemma digits_length s ds r :
  digits s = (ds, r) → String.length r ≤ String.length s.
Proof.
  revert ds r. induction s as [|c s IH]; intros ds r H; simpl in *.
  - by simplify_eq.
  - destruct (isDigit c); [|simplify_eq; simpl; lia].
    destruct (digits s) as [ds' r'] eqn:E. simplify_eq.
    specialize (IH _ _ eq_refl). lia.
Qed.

Lemma scan_number_length s l r :
  s ≠ EmptyString →
  scan_number s = Some (l, r) → String.length r < String.length s.
Proof.
  intros Hs H. unfold scan_number, scan_int, scan_frac, scan_exp in H.
  repeat (case_match; simplify_eq; simpl in *; try done);
    repeat match goal with
    | H : digits _ = _ |- _ => apply digits_length in H; simpl in H
    end; simpl in *; try lia.
Qed.

Lemma scan_word_length w s r :
  scan_word w s = Some r → String.length r ≤ String.length s.
Proof.
  revert s. induction w as [|c w IH]; intros s H; simpl in H; [by simplify_eq|].
  destruct s as [|d s]; [done|]. case_match; [|done].
  apply IH in H. simpl. lia.
Qed.

(** With the fuel [decode] gives it the scanner never runs out, and a
    scanned value has used up part of the text. *)
Lemma scan_fuel (fuel : nat) :
  (∀ depth s,
     (2 * String.length s + 2 ≤ fuel → value fuel depth s ≠ OutOfFuel)
     ∧ ∀ v r, value fuel depth s = Scanned v r →
              String.length r < String.length s)
  ∧ (∀ depth s seen,
       (2 * String.length s + 1 ≤ fuel → members fuel depth s seen ≠ OutOfFuel)
       ∧ ∀ v r, members fuel depth s seen = Scanned v r →
                String.length r < String.length s)
  ∧ (∀ depth s seen,
       (2 * String.length s + 3 ≤ fuel → elements fuel depth s seen ≠ OutOfFuel)
       ∧ ∀ v r, elements fuel depth s seen = Scanned v r →
                String.length r < String.length s).
Proof.
  induction fuel as [|fuel (IHv & IHm & IHe)].
  { split_and!; intros; (split; [simpl; lia|done]). }
  split_and!.
  - intros depth s. split.
    + intros Hf. simpl.
      destruct (skip_ws s) as [|c r] eqn:Es; [done|].
      apply skip_ws_cons in Es.
      repeat (case_match; simplify_eq; try done);
        first [eapply IHm; lia | eapply IHe; lia].
    + intros v r0 H. simpl in H.
      destruct (skip_ws s) as [|c r] eqn:Es; [done|].
      apply skip_ws_cons in Es.
      repeat (case_match; simplify_eq; try done);
        repeat match goal with
        | H : skip_ws _ = String _ _ |- _ => apply skip_ws_cons in H
        | H : scan_string _ _ = Some _ |- _ =>
            apply scan_string_length in H
        | H : scan_number _ = Some _ |- _ =>
            apply scan_number_length in H; [|done]
        | H : scan_word _ _ = Some _ |- _ => apply scan_word_length in H
        | H : members _ _ _ _ = Scanned _ _ |- _ => apply IHm in H
        | H : elements _ _ _ _ = Scanned _ _ |- _ => apply IHe in H
        end; simpl in *; lia.
  - intros depth s seen. split.
    + intros Hf. simpl.
      repeat (case_match; simplify_eq; try done);
        repeat match goal with
        | H : skip_ws _ = String _ _ |- _ => apply skip_ws_cons in H
        | H : scan_string _ _ = Some _ |- _ =>
            apply scan_string_length in H
        | H : value _ _ _ = Scanned _ _ |- _ => apply IHv in H
        end;
        first [ eapply IHm; lia
              | exfalso; match goal with H : value _ _ ?t = OutOfFuel |- _ =>
                  revert H; eapply IHv; lia end ].
    + intros v r0 H. simpl in H.
      repeat (case_match; simplify_eq; try done);
        repeat match goal with
        | H : skip_ws _ = String _ _ |- _ => apply skip_ws_cons in H
        | H : scan_string _ _ = Some _ |- _ =>
            apply scan_string_length in H
        | H : value _ _ _ = Scanned _ _ |- _ => apply IHv in H
        | H : members _ _ _ _ = Scanned _ _ |- _ => apply IHm in H
        end; simpl in *; lia.
  - intros depth s seen. split.
    + intros Hf. simpl.
      repeat (case_match; simplify_eq; try done);
        repeat match goal with
        | H : skip_ws _ = String _ _ |- _ => apply skip_ws_cons in H
        | H : value _ _ _ = Scanned _ _ |- _ => apply IHv in H
        end;
        first [ eapply IHe; lia
              | exfalso; match goal with H : value _ _ ?t = OutOfFuel |- _ =>
                  revert H; eapply IHv; lia end ].
    + intros v r0 H. simpl in H.
      repeat (case_match; simplify_eq; try done);
        repeat match goal with
        | H : skip_ws _ = String _ _ |- _ => apply skip_ws_cons in H
        | H : value _ _ _ = Scanned _ _ |- _ => apply IHv in H
        | H : elements _ _ _ _ = Scanned _ _ |- _ => apply IHe in H
        end; simpl in *; lia.
Qed.

Lemma decode_has_fuel (body : string) : decode body ≠ OutOfFuel.
Proof. unfold decode. apply (scan_fuel _). lia. Qed.

End ScanLengths.

(** What binding does with a body, by what the scanner makes of it. *)
Lemma decodeJSON_invalid {A} (into : json.Value → Bind A) body :
  json.decode body = json.Invalid → ∃ msg, json.decodeJSON into body = BindErr msg.
Proof. intros H. unfold json.decodeJSON. rewrite H. by eexists. Qed.

Lemma decodeJSON_scanned {A} (into : json.Value → Bind A) body v rest :
  json.decode body = json.Scanned v rest → json.decodeJSON into body = into v.
Proof. intros H. unfold json.decodeJSON. by rewrite H. Qed.

Lemma show_handler_unbound s msg w :
  status w = None → refused (show_handler s (BindErr msg) w) w.
Proof. intros Hw. unfold refused. simpl. unfold commit. by rewrite Hw. Qed.

Lemma show_handler_nameless s (request : gmap string string) w :
  status w = None →
  request !! "name" = None ∨ request !! "name" = Some "" →
  refused (show_handler s (BindOk request) w) w.
Proof.
  intros Hw Hname. unfold refused, show_handler.
  assert (default "" (request !! "name") = "") as ->
    by (destruct Hname as [-> | ->]; done).
  simpl. unfold commit. by rewrite Hw.
Qed.

Lemma chat_handler_unbound clock s msg w :
  status w = None → refused (chat_handler clock s (BindErr msg) w) w.
Proof. intros Hw. unfold refused. simpl. unfold commit. by rewrite Hw. Qed.

Lemma not_json_text body :
  ¬ json_text body →
  json.decode body = json.Invalid
  ∨ ∃ v rest, json.decode body = json.Scanned v rest
              ∧ json.skip_ws rest ≠ EmptyString.
Proof.
  intros Hn. destruct (json.decode body) as [v rest| |] eqn:E.
  - right. exists v, rest. split; [done|]. intros Hr. apply Hn.
    by exists v, rest.
  - by left.
  - by destruct (decode_has_fuel body).
Qed.

(** C8 (amended). On a fresh response, for the request body as it arrives:
    the details route and the chat route answer 400 and call no provider
    method when the body does not begin with a well-formed JSON value, and
    when that value cannot be stored into the request; the details route
    does so as well when the stored request has no [name] entry or an empty
    one. A body that is not a JSON text either does not begin with a
    well-formed value, and is refused, or begins with one that has other
    text behind it: that text is never read. *)
Theorem unbound_body_is_400_without_backend_call (clock : nat → string)
    (s : Server) (into : json.Value → Bind ChatRequest) (w : World) :
  status w = None →
  (∀ body, json.decode body = json.Invalid →
     refused (show_route s body w) w
     ∧ refused (chat_route clock s into body w) w)
  ∧ (∀ body v rest msg,
       json.decode body = json.Scanned v rest →
       json.into_map v = BindErr msg →
       refused (show_route s body w) w)
  ∧ (∀ body v rest msg,
       json.decode body = json.Scanned v rest →
       into v = BindErr msg →
       refused (chat_route clock s into body w) w)
  ∧ (∀ body v rest (request : gmap string string),
       json.decode body = json.Scanned v rest →
       json.into_map v = BindOk request →
       request !! "name" = None ∨ request !! "name" = Some "" →
       refused (show_route s body w) w)
  ∧ (∀ body, ¬ json_text body →
       json.decode body = json.Invalid
       ∨ ∃ v rest, json.decode body = json.Scanned v rest
                   ∧ json.skip_ws rest ≠ EmptyString).
Proof.
  intros Hw. split_and!.
  - intros body H. unfold show_route, chat_route.
    destruct (decodeJSON_invalid json.into_map body H) as [m1 ->].
    destruct (decodeJSON_invalid into body H) as [m2 ->].
    split; [by apply show_handler_unbound|by apply chat_handler_unbound].
  - intros body v rest msg H Hv. unfold show_route.
    rewrite (decodeJSON_scanned _ _ _ _ H), Hv. by apply show_handler_unbound.
  - intros body v rest msg H Hv. unfold chat_route.
    rewrite (decodeJSON_scanned _ _ _ _ H), Hv. by apply chat_handler_unbound.
  - intros body v rest request H Hv Hname. unfold show_route.
    rewrite (decodeJSON_scanned _ _ _ _ H), Hv. by apply show_handler_nameless.
  - apply not_json_text.
Qed.

Lemma unbound_body_is_400_without_backend_call_witness :
  status pristine = None
  ∧ json.decode ex_cut_body = json.Invalid
  ∧ refused (show_route (ex_server ex_hello) ex_cut_body pristine) pristine
  ∧ refused
      (chat_route ex_clock (ex_server ex_hello)
         (λ _, BindOk (ex_request "llama3" None)) ex_cut_body pristine)
      pristine
  ∧ json.decode ex_empty_body = json.Scanned (json.Obj []) EmptyString
  ∧ json.into_map (json.Obj []) = BindOk ∅
  ∧ (∅ : gmap string string) !! "name" = None
  ∧ refused (show_route (ex_server ex_hello) ex_empty_body pristine) pristine.
Proof.
  destruct (unbound_body_is_400_without_backend_call ex_clock
              (ex_server ex_hello) (λ _, BindOk (ex_request "llama3" None))
              pristine eq_refl) as (Hbad & _ & _ & Hname & _).
  destruct (Hbad ex_cut_body eq_refl) as [Hs Hc].
  split_and!;
    [reflexivity|reflexivity|exact Hs|exact Hc|reflexivity|reflexivity
    |apply lookup_empty
    |exact (Hname ex_empty_body (json.Obj []) EmptyString ∅ eq_refl eq_refl
              (or_introl (lookup_empty _)))].
Defined.

(** A body that is not a JSON text, a well-formed object with other text
    behind it, is bound all the same: the details route asks the provider
    for the model it names and answers 200. *)
Lemma trailing_text_body_reaches_backend :
  ¬ json_text ex_trailing_body
  ∧ json.decodeJSON json.into_map ex_trailing_body
    = BindOk {[ "name" := "gpt-4o-mini" ]}
  ∧ calls (show_route (ex_server ex_hello) ex_trailing_body pristine).2
    = [CallGetModelDetails "gpt-4o-mini"]
  ∧ status (show_route (ex_server ex_hello) ex_trailing_body pristine).2
    = Some StatusOK.
Proof.
  split_and!.
  - intros (v & rest & Hd & Hr). vm_compute in Hd. by simplify_eq.
  - vm_compute. reflexivity.
  - vm_compute. reflexivity.
  - vm_compute. reflexivity.
Qed.

(** ** Witnesses for the catalog route and the filter file *)


Lemma loadModelFilter_trimmed_nonempty_lines_witness :
  Forall (λ l, Filter.too_long l = false)
    (Filter.raw_lines EmptyString ex_filter_file)
  ∧ ∃ F : gset string,
      Filter.loadModelFilter (Some ex_filter_file) = Ok F
      ∧ (∀ x, x ∈ F ↔
              x ≠ "" ∧ ∃ l, l ∈ file_lines ex_filter_file
                            ∧ x = Filter.TrimSpace l)
      ∧ (∀ l, l ∈ file_lines ex_filter_file →
              String.prefix "#" (Filter.TrimSpace l) = true →
              Filter.TrimSpace l ∈ F).
Proof.
  assert (Forall (λ l, Filter.too_long l = false)
            (Filter.raw_lines EmptyString ex_filter_file)) as H
    by (vm_compute; repeat constructor).
  split; [exact H|].
  exact (loadModelFilter_trimmed_nonempty_lines ex_filter_file H).
Defined.

(** C7 as stated fails for [#] lines: the file starts with the line
    [# local models], and that line, trimmed, is a member of the loaded
    filter, next to the one member the two [gpt-4o-mini] lines make. *)
Lemma loadModelFilter_keeps_hash_line :
  file_lines ex_filter_file
    = ["# local models"; "gpt-4o-mini"; ""; "  gpt-4o-mini  "]
  ∧ ∃ F : gset string,
      Filter.loadModelFilter (Some ex_filter_file) = Ok F
      ∧ "# local models" ∈ F
      ∧ F = {[ "# local models"; "gpt-4o-mini" ]}.
Proof.
  split; [reflexivity|].
  unfold Filter.loadModelFilter, Filter.Scanner.
  rewrite scan_fits by (vm_compute; repeat constructor).
  eexists. split; [reflexivity|].
  change (Filter.dropCR <$> Filter.raw_lines EmptyString ex_filter_file)
    with ["# local models"; "gpt-4o-mini"; ""; "  gpt-4o-mini  "].
  assert (∀ x, x ∈ foldl Filter.add_line (∅ : gset string)
                     ["# local models"; "gpt-4o-mini"; ""; "  gpt-4o-mini  "]
               ↔ x = "# local models" ∨ x = "gpt-4o-mini") as Hmem.
  { intros x. rewrite elem_of_add_lines. split.
    - intros [Hx|(Hne & l & Hl & ->)]; [by apply not_elem_of_empty in Hx|].
      repeat (apply elem_of_cons in Hl as [->|Hl];
              [vm_compute in Hne |- *; tauto|]).
      by apply not_elem_of_nil in Hl.
    - intros [-> | ->]; right; (split; [discriminate|]).
      + exists "# local models". split; [apply list_elem_of_here|reflexivity].
      + exists "gpt-4o-mini". split; [|reflexivity].
        apply list_elem_of_further, list_elem_of_here. }
  split; [apply Hmem; by left|].
  apply set_eq. intros x.
  rewrite Hmem, elem_of_union, !elem_of_singleton. tauto.
Qed.

(** ** The examples of the specification *)

(** The filter holds [gpt-4o-mini] and the catalog lists [gpt-4o-mini] and
    [gpt-4o]: the listing has the [gpt-4o-mini] entry only. *)
Example tags_example :
  payload <$> body (tags_handler (ex_server ex_hello) pristine).2
  = [ JObj [("models",
             JArr [ JObj [ ("name", JStr "openai/gpt-4o-mini");
                           ("model", JStr "gpt-4o-mini");
                           ("modified_at", JStr "2024-07-18T00:00:00Z");
                           ("size", JInt 270898672);
                           ("digest", JStr "9077fe9d2ae1a4a41a868836b56b8163731a8fe16621397028c2c76f838c6907");
                           ("details", JObj []) ] ])] ].
Proof. vm_compute. reflexivity. Qed.

(** A non-streaming request against a backend that returns one choice with
    content "hello": one object with that content, [done:true] and finish
    reason "stop". *)
Example chat_once_example :
  let r := chat_handler ex_clock (ex_server ex_hello)
             (BindOk (ex_request "gpt-4o-mini" (Some false))) pristine in
  r.1 = Returned
  ∧ status r.2 = Some 200
  ∧ role_of <$> body r.2 = [Some "assistant"]
  ∧ content_of <$> body r.2 = [Some "hello"]
  ∧ done_flag <$> body r.2 = [Some true]
  ∧ finish_reason_of <$> body r.2 = [Some "stop"].
Proof. cbn zeta. split_and!; reflexivity. Qed.

(** The backend streams "He" and "llo", the second delta with finish reason
    "stop", then ends: two [done:false] frames with these contents, then one
    [done:true] frame with finish reason "stop", each pushed out by a
    flush. *)
Example chat_stream_example :
  let r := chat_handler ex_clock (ex_server ex_hello)
             (BindOk (ex_request "gpt-4o-mini" None)) pristine in
  r.1 = Returned
  ∧ status r.2 = Some 200
  ∧ header r.2 !! "Content-Type" = Some "application/x-ndjson"
  ∧ content_of <$> body r.2 = [Some "He"; Some "llo"; Some ""]
  ∧ done_flag <$> body r.2 = [Some false; Some false; Some true]
  ∧ finish_reason_of <$> body r.2 = [None; None; Some "stop"]
  ∧ newline <$> body r.2 = [true; true; true]
  ∧ flushed r.2 = 3%nat
  ∧ handles r.2 = 0%nat.
Proof. cbn zeta. split_and!; reflexivity. Qed.

(** White space around a name, a carriage return before the line feed and
    a no-break space (U+00A0) are trimmed away. *)
Example TrimSpace_example :
  Filter.TrimSpace (Filter.bytes [32; 9] +:+ "gpt-4o"
                    +:+ Filter.bytes [194; 160; 32; 13])%nat
  = "gpt-4o".
Proof. reflexivity. Qed.

(** * Further properties *)

(** ** Loading the filter file: failures *)

Section ScanFacts.

Import Filter.

Lemma scan_error (ls : list string) :
  match (scan ls).2 with
  | None => Forall (λ l, too_long l = false) ls
  | Some e =>
      e = "bufio.Scanner: token too long"
      ∧ Exists (λ l, too_long l = true) ls
  end.
Proof.
  induction ls as [|l ls IH]; simpl; [done|].
  destruct (too_long l) eqn:Hl; simpl.
  - split; [done|]. by apply Exists_cons_hd.
  - destruct (scan ls) as [toks [e|]]; simpl in *.
    + destruct IH as [-> IH]. split; [done|]. by apply Exists_cons_tl.
    + by constructor.
Qed.

End ScanFacts.

Lemma loadModelFilter_plain (file : option string) :
  OnDisk.loadModelFilter (OnDisk.plain file) =
    match Filter.loadModelFilter file with
    | Ok filter => OnDisk.Names filter
    | Err e =>
        match file with
        | None =>
            OnDisk.Failed {| OnDisk.message := e; OnDisk.notExist := true |}
        | Some _ => OnDisk.Failed OnDisk.ErrTooLong
        end
    end.
Proof.
  destruct file as [content|]; [|reflexivity]. simpl.
  by destruct (Filter.Scanner content) as [toks [e|]].
Qed.

(** X1. Loading the filter file fails exactly when [os.Open] fails, when one
    of the lines read does not fit the scanner's buffer, wherever that line
    stands, or when a read fails; the error is then that of [os.Open], the
    scanner's "token too long", which comes first, or that of the read,
    and the names read so far are dropped with it. Otherwise the file has
    been read to its end and the result is the set of its names. *)
Theorem loadModelFilter_failures (file : OnDisk.File) :
  match OnDisk.loadModelFilter file with
  | OnDisk.Names filter =>
      ∃ content,
        file = OnDisk.Opened content None
        ∧ Forall (λ l, Filter.too_long l = false)
            (Filter.raw_lines EmptyString content)
        ∧ Filter.loadModelFilter (Some content) = Ok filter
  | OnDisk.Failed e =>
      file = OnDisk.Unopened e
      ∨ ∃ read failure,
          file = OnDisk.Opened read failure
          ∧ ((e = OnDisk.ErrTooLong
              ∧ Exists (λ l, Filter.too_long l = true)
                  (Filter.raw_lines EmptyString read))
             ∨ (failure = Some e
                ∧ Forall (λ l, Filter.too_long l = false)
                    (Filter.raw_lines EmptyString read)))
  end.
Proof.
  destruct file as [err|read failure]; simpl; [by left|].
  unfold Filter.Scanner.
  pose proof (scan_error (Filter.raw_lines EmptyString read)) as H.
  destruct (Filter.scan _) as [toks [e|]] eqn:E; simpl in H.
  - right. exists read, failure. split; [done|]. left. by destruct H.
  - destruct failure as [err|].
    + right. exists read, (Some err). split; [done|]. by right.
    + exists read. split; [done|]. split; [done|].
      unfold Filter.Scanner. by rewrite E.
Qed.

(** ** Loading the filter file: what the members look like *)

Section TrimFacts.

Import Filter.

Lemma string_app_cons (x : ascii) (a b : string) :
  String x a +:+ b = String x (a +:+ b).
Proof. reflexivity. Qed.

Lemma string_app_nil_l (a : string) : "" +:+ a = a.
Proof. reflexivity. Qed.

Lemma string_app_assoc (a b c : string) : (a +:+ b) +:+ c = a +:+ (b +:+ c).
Proof.
  induction a as [|x a IH]; [done|]. by rewrite !string_app_cons, IH.
Qed.

Lemma string_app_nil_r (a : string) : a +:+ "" = a.
Proof. induction a as [|x a IH]; [done|]. by rewrite string_app_cons, IH. Qed.

Lemma rev_app_spec (s t : string) :
  String.rev_app s t = String.rev s +:+ t.
Proof.
  unfold String.rev. revert t.
  induction s as [|c s IH]; intros t; simpl; [done|].
  rewrite IH, (IH (String c "")). by rewrite string_app_assoc.
Qed.

Lemma rev_cons (c : ascii) (s : string) :
  String.rev (String c s) = String.rev s +:+ String c "".
Proof. unfold String.rev at 1. simpl. apply rev_app_spec. Qed.

Lemma rev_app_distr (a b : string) :
  String.rev (a +:+ b) = String.rev b +:+ String.rev a.
Proof.
  induction a as [|x a IH].
  - rewrite string_app_nil_l. change (String.rev "") with "".
    by rewrite string_app_nil_r.
  - rewrite string_app_cons, !rev_cons, IH. by rewrite string_app_assoc.
Qed.

Lemma rev_involutive (s : string) : String.rev (String.rev s) = s.
Proof.
  induction s as [|c s IH]; [done|].
  rewrite rev_cons, rev_app_distr, IH. reflexivity.
Qed.

Lemma prefix_app (sp v t : string) :
  String.prefix sp v = true → String.prefix sp (v +:+ t) = true.
Proof.
  revert v. induction sp as [|c sp IH]; intros v H.
  - by destruct (v +:+ t).
  - destruct v as [|d v]; [done|]. rewrite string_app_cons. simpl in *.
    destruct (ascii_dec c d); [|done]. by apply IH.
Qed.

Lemma space_width_zero (table : list string) (s : string) :
  proper table →
  space_width table s = 0%nat ↔ no_space_at_front table s.
Proof.
  intros Hp. unfold space_width, no_space_at_front.
  induction Hp as [|sp table Hsp _ IH]; simpl; [by split; [constructor|]|].
  destruct (String.prefix sp s) eqn:E.
  - split.
    + intros H. destruct sp; [done|]. discriminate.
    + intros H. apply Forall_cons in H as [H _]. congruence.
  - rewrite IH. split; [by constructor|]. by intros [_ ?]%Forall_cons.
Qed.

(** What [trim_front] returns is a tail of its argument, and is empty or
    starts with no white-space rune. *)
Lemma trim_front_tail (table : list string) (skip : nat) (s : string) :
  ∃ p, s = p +:+ trim_front table skip s.
Proof.
  revert skip. induction s as [|c s IH]; intros skip; [by exists ""|].
  simpl. destruct skip as [|k].
  - destruct (space_width table (String c s)) as [|k] eqn:E.
    + by exists "".
    + destruct (IH k) as [p Hp]. exists (String c p).
      by rewrite string_app_cons, <- Hp.
  - destruct (IH k) as [p Hp]. exists (String c p).
    by rewrite string_app_cons, <- Hp.
Qed.

Lemma trim_front_clean (table : list string) (skip : nat) (s : string) :
  proper table →
  no_space_at_front table (trim_front table skip s).
Proof.
  intros Hp. revert skip. induction s as [|c s IH]; intros skip.
  - simpl. unfold no_space_at_front. eapply Forall_impl; [exact Hp|].
    intros sp Hsp. by destruct sp.
  - simpl. destruct skip as [|k]; [|apply IH].
    destruct (space_width table (String c s)) as [|k] eqn:E; [|apply IH].
    by apply space_width_zero.
Qed.

Lemma trim_front_fixed (table : list string) (s : string) :
  proper table → no_space_at_front table s → trim_front table 0 s = s.
Proof.
  intros Hp Hs. destruct s as [|c s]; [done|]. simpl.
  apply (space_width_zero _ _ Hp) in Hs. by rewrite Hs.
Qed.

Lemma no_space_at_front_prefix (table : list string) (v t : string) :
  no_space_at_front table (v +:+ t) → no_space_at_front table v.
Proof.
  intros H. unfold no_space_at_front in *.
  eapply Forall_impl; [exact H|]. intros sp Hsp. simpl in Hsp.
  destruct (String.prefix sp v) eqn:E; [|done].
  by rewrite (prefix_app _ _ t E) in Hsp.
Qed.

Lemma spaces_proper : proper spaces.
Proof. unfold proper. by vm_compute; repeat constructor. Qed.

Lemma rev_spaces_proper : proper (map String.rev spaces).
Proof. unfold proper. by vm_compute; repeat constructor. Qed.

(** The result of [TrimSpace] neither starts nor ends with a white-space
    rune. *)
Lemma TrimSpace_clean (s : string) :
  no_space_at_front spaces (TrimSpace s)
  ∧ no_space_at_front (map String.rev spaces) (String.rev (TrimSpace s)).
Proof.
  unfold TrimSpace.
  set (a := trim_front spaces 0 s).
  set (b := trim_front (map String.rev spaces) 0 (String.rev a)).
  assert (no_space_at_front (map String.rev spaces) b) as Hb
    by apply trim_front_clean, rev_spaces_proper.
  split; [|by rewrite rev_involutive].
  destruct (trim_front_tail (map String.rev spaces) 0 (String.rev a)) as [p Hp].
  fold b in Hp.
  assert (a = String.rev b +:+ String.rev p) as Ha.
  { rewrite <- (rev_involutive a), Hp. apply rev_app_distr. }
  apply (no_space_at_front_prefix _ _ (String.rev p)).
  rewrite <- Ha. apply trim_front_clean, spaces_proper.
Qed.

Lemma TrimSpace_fixed (x : string) :
  no_space_at_front spaces x →
  no_space_at_front (map String.rev spaces) (String.rev x) →
  TrimSpace x = x.
Proof.
  intros Hf Hb. unfold TrimSpace.
  rewrite (trim_front_fixed _ _ spaces_proper Hf).
  rewrite (trim_front_fixed _ _ rev_spaces_proper Hb).
  apply rev_involutive.
Qed.

(** Trimming twice is trimming once. *)
Lemma TrimSpace_idempotent (s : string) : TrimSpace (TrimSpace s) = TrimSpace s.
Proof. destruct (TrimSpace_clean s). by apply TrimSpace_fixed. Qed.

End TrimFacts.

(** X2. Every name in a loaded filter is ready to be compared with the bare
    identifiers of the catalog: it is not empty, it neither starts nor ends
    with a white-space rune (ASCII or Unicode), and trimming it again
    changes nothing. *)
Theorem loadModelFilter_members_are_trimmed (content : string)
    (F : gset string) (x : string) :
  Filter.loadModelFilter (Some content) = Ok F →
  x ∈ F →
  x ≠ ""
  ∧ Filter.TrimSpace x = x
  ∧ no_space_at_front Filter.spaces x
  ∧ no_space_at_front (map String.rev Filter.spaces) (String.rev x).
Proof.
  unfold Filter.loadModelFilter.
  destruct (Filter.Scanner content) as [toks [e|]]; [done|].
  intros [= <-] Hx. apply elem_of_add_lines in Hx as [Hx|(Hne & t & _ & ->)];
    [by apply not_elem_of_empty in Hx|].
  destruct (TrimSpace_clean t) as [Hf Hb].
  split_and!; try done. apply TrimSpace_idempotent.
Qed.

Lemma loadModelFilter_members_are_trimmed_witness :
  Filter.loadModelFilter (Some ex_filter_file)
    = Ok {[ "# local models"; "gpt-4o-mini" ]}
  ∧ "gpt-4o-mini" ∈ ({[ "# local models"; "gpt-4o-mini" ]} : gset string)
  ∧ "gpt-4o-mini" ≠ ""
  ∧ Filter.TrimSpace "gpt-4o-mini" = "gpt-4o-mini"
  ∧ no_space_at_front Filter.spaces "gpt-4o-mini"
  ∧ no_space_at_front (map String.rev Filter.spaces) (String.rev "gpt-4o-mini").
Proof.
  assert (Filter.loadModelFilter (Some ex_filter_file)
          = Ok {[ "# local models"; "gpt-4o-mini" ]}) as Hload.
  { reflexivity. }
  assert ("gpt-4o-mini" ∈ ({[ "# local models"; "gpt-4o-mini" ]} : gset string))
    as Hin by (apply elem_of_union; right; by apply elem_of_singleton).
  split; [exact Hload|]. split; [exact Hin|].
  exact (loadModelFilter_members_are_trimmed ex_filter_file _ _ Hload Hin).
Defined.

(** X3. Two files with the same lines, in whatever order and however often
    repeated, load to the same filter. *)
Theorem loadModelFilter_depends_on_line_set (c1 c2 : string) :
  Forall (λ l, Filter.too_long l = false) (Filter.raw_lines EmptyString c1) →
  Forall (λ l, Filter.too_long l = false) (Filter.raw_lines EmptyString c2) →
  (∀ l, l ∈ file_lines c1 ↔ l ∈ file_lines c2) →
  Filter.loadModelFilter (Some c1) = Filter.loadModelFilter (Some c2).
Proof.
  intros H1 H2 Hsame. unfold Filter.loadModelFilter, Filter.Scanner.
  rewrite (scan_fits _ H1), (scan_fits _ H2). f_equal.
  apply set_eq. intros x. rewrite !elem_of_add_lines.
  unfold file_lines in Hsame.
  split; (intros [?|(Hne & l & Hl & ->)]; [by left|]);
    right; (split; [done|]); exists l; (split; [by apply Hsame|done]).
Qed.

Lemma loadModelFilter_depends_on_line_set_witness :
  file_lines ex_filter_file_shuffled = ["gpt-4o"; "gpt-4o-mini"; "gpt-4o"]
  ∧ file_lines ex_filter_file_sorted = ["gpt-4o-mini"; "gpt-4o"]
  ∧ Filter.loadModelFilter (Some ex_filter_file_shuffled)
    = Filter.loadModelFilter (Some ex_filter_file_sorted).
Proof.
  split; [reflexivity|]. split; [reflexivity|].
  apply loadModelFilter_depends_on_line_set.
  - vm_compute. repeat constructor.
  - vm_compute. repeat constructor.
  - intros l.
    change (file_lines ex_filter_file_shuffled)
      with ["gpt-4o"; "gpt-4o-mini"; "gpt-4o"].
    change (file_lines ex_filter_file_sorted) with ["gpt-4o-mini"; "gpt-4o"].
    rewrite !elem_of_cons. pose proof (not_elem_of_nil l). tauto.
Defined.

(** ** Start-up and the catalog route together *)





(** X5. [Start] returns before it sets up any route exactly when the
    filter file cannot be loaded for another reason than its not being
    there: [os.Open] fails with an error that [os.IsNotExist] does not
    recognise, a line read does not fit the scanner's buffer, or a read
    fails with such an error. A file that is not there never keeps the
    server from starting: it then serves with an empty filter. *)
Theorem Start_refuses_unloadable_filter
    (NewOpenrouterProvider : string → OpenrouterProvider) (apiKey : string) :
  (∀ file,
     OnDisk.Start NewOpenrouterProvider apiKey file = None
     ↔ (∃ e, file = OnDisk.Unopened e ∧ OnDisk.notExist e = false)
       ∨ ∃ read failure,
           file = OnDisk.Opened read failure
           ∧ (Exists (λ l, Filter.too_long l = true)
                (Filter.raw_lines EmptyString read)
              ∨ ∃ e, failure = Some e ∧ OnDisk.notExist e = false))
  ∧ (∀ e, OnDisk.notExist e = true →
          OnDisk.Start NewOpenrouterProvider apiKey (OnDisk.Unopened e)
          = Some {| provider := NewOpenrouterProvider apiKey;
                    filterMap := ∅ |})
  ∧ (∀ file,
       OnDisk.Start NewOpenrouterProvider apiKey (OnDisk.plain file)
       = Start NewOpenrouterProvider apiKey file).
Proof.
  split_and!.
  - intros file. unfold OnDisk.Start.
    pose proof (loadModelFilter_failures file) as H.
    destruct (OnDisk.loadModelFilter file) as [e|filter].
    + destruct H as [->|(read & failure & -> & [[-> Hlong]|[-> Hfit]])].
      * destruct (OnDisk.notExist e) eqn:E.
        -- split; [done|]. intros [(e' & [= <-] & ?)|(? & ? & ? & _)]; congruence.
        -- split; [|done]. intros _. left. by exists e.
      * simpl. split; [|done]. intros _. right. eexists _, _.
        split; [done|]. by left.
      * destruct (OnDisk.notExist e) eqn:E.
        -- split; [done|]. intros [(e' & ? & _)|(r & f & [= <- <-] & [Hex|He])];
             [done| |].
           ++ apply Exists_exists in Hex as (l & Hl & Hlong).
              rewrite Forall_forall in Hfit. by rewrite (Hfit l Hl) in Hlong.
           ++ destruct He as (e' & [= <-] & ?). congruence.
        -- split; [|done]. intros _. right. eexists _, _.
           split; [done|]. right. by exists e.
    + destruct H as (content & -> & Hfit & _). split; [done|].
      intros [(e' & ? & _)|(r & f & [= <- <-] & [Hex|He])]; [done| |].
      * apply Exists_exists in Hex as (l & Hl & Hlong).
        rewrite Forall_forall in Hfit. by rewrite (Hfit l Hl) in Hlong.
      * by destruct He as (e' & ? & _).
  - intros e He. unfold OnDisk.Start. simpl. by rewrite He.
  - intros file. unfold OnDisk.Start, Start.
    rewrite loadModelFilter_plain.
    destruct file as [content|]; [|reflexivity].
    destruct (Filter.loadModelFilter (Some content)) as [F|e] eqn:E; [done|].
    simpl. unfold Filter.loadModelFilter in E.
    pose proof (scan_error (Filter.raw_lines EmptyString content)) as H.
    unfold Filter.Scanner in E.
    destruct (Filter.scan _) as [toks [e'|]]; simplify_eq.
    simpl in H. by destruct H as [-> _].
Qed.

(** ** The catalog route: how the listing varies with the filter *)

Lemma sublist_filter_impl {A} (P Q : A → Prop)
    `{∀ x, Decision (P x)} `{∀ x, Decision (Q x)} (l : list A) :
  (∀ x, P x → Q x) → filter P l `sublist_of` filter Q l.
Proof.
  intros HPQ. induction l as [|x l IH]; [done|].
  rewrite !filter_cons. destruct (decide (P x)) as [HP|HP].
  - rewrite decide_True by auto. by apply sublist_skip.
  - destruct (decide (Q x)); [by apply sublist_cons|done].
Qed.

Lemma sublist_map {A B} (f : A → B) (l k : list A) :
  l `sublist_of` k → f <$> l `sublist_of` f <$> k.
Proof. induction 1; simpl; by constructor. Qed.

(** X6. Names added to a filter that is not empty only add entries to the
    listing, and no filter lists more than the empty one: the listing under
    [F] is a subsequence of the listing under a larger [F'], and of the
    unfiltered listing. Going from no name to a first name is the one step
    that can shrink the listing. *)
Theorem tags_listing_grows_with_filter (F F' : gset string)
    (C : list ModelInfo) :
  (F ≠ ∅ → F ⊆ F' → tags_listing F C `sublist_of` tags_listing F' C)
  ∧ tags_listing F C `sublist_of` tags_listing ∅ C.
Proof.
  rewrite !tags_listing_filter. split.
  - intros Hne Hsub. apply sublist_map, sublist_filter_impl.
    intros m [HF|Hin]; [done|]. right. by apply Hsub.
  - apply sublist_map, sublist_filter_impl. intros m _. by left.
Qed.

(** X7. A filter that is not empty and names no model of the catalog gives an
    empty listing, not an unfiltered one; and the listing under such a
    filter is empty only then. *)
Theorem tags_listing_empty_iff_no_match (F : gset string)
    (C : list ModelInfo) :
  F ≠ ∅ →
  tags_listing F C = [] ↔ ∀ m, m ∈ C → m_Model m ∉ F.
Proof.
  intros Hne. rewrite tags_listing_filter. split.
  - intros H m Hm Hin. apply fmap_nil_inv in H.
    assert (m ∈ filter (passes F) C) as Hf
      by (apply list_elem_of_filter; split; [by right|done]).
    rewrite H in Hf. by apply not_elem_of_nil in Hf.
  - intros H. assert (filter (passes F) C = []) as ->; [|done].
    induction C as [|m C IH]; [done|].
    rewrite filter_cons, decide_False.
    + apply IH. intros m' Hm'. apply H. by apply list_elem_of_further.
    + intros [?|Hin]; [done|]. by apply (H m); [apply list_elem_of_here|].
Qed.

Lemma tags_listing_empty_iff_no_match_witness :
  ({[ "openai/gpt-4o-mini" ]} : gset string) ≠ ∅
  ∧ (tags_listing {[ "openai/gpt-4o-mini" ]} ex_catalog = []
     ↔ ∀ m, m ∈ ex_catalog → m_Model m ∉ ({[ "openai/gpt-4o-mini" ]} : gset string)).
Proof.
  assert (({[ "openai/gpt-4o-mini" ]} : gset string) ≠ ∅) as Hne
    by (intros H; by apply (non_empty_singleton_L (C := gset string)) in H).
  split; [exact Hne|].
  exact (tags_listing_empty_iff_no_match _ ex_catalog Hne).
Defined.

Lemma tags_listing_grows_with_filter_witness :
  ({[ "gpt-4o" ]} : gset string) ≠ ∅
  ∧ ({[ "gpt-4o" ]} : gset string) ⊆ {[ "gpt-4o"; "gpt-4o-mini" ]}
  ∧ tags_listing {[ "gpt-4o" ]} ex_catalog
      `sublist_of` tags_listing {[ "gpt-4o"; "gpt-4o-mini" ]} ex_catalog.
Proof.
  assert (({[ "gpt-4o" ]} : gset string) ≠ ∅) as Hne
    by (intros H; by apply (non_empty_singleton_L (C := gset string)) in H).
  assert (({[ "gpt-4o" ]} : gset string) ⊆ {[ "gpt-4o"; "gpt-4o-mini" ]})
    as Hsub by (apply union_subseteq_l).
  split; [exact Hne|]. split; [exact Hsub|].
  exact (proj1 (tags_listing_grows_with_filter _ _ ex_catalog) Hne Hsub).
Defined.

(** ** The chat route: provider calls, panics, finish reason, transport *)

Section LoopMore.

Variable clock : nat → string.
Variable fullModelName : string.

(** The loop has no lookahead: the deltas [ds1], each with a choice, are
    relayed before anything of what follows them is looked at. *)
Lemma recv_loop_app fin ds1 ds2 last w :
  Forall has_choice ds1 →
  ∃ w', recv_loop clock fullModelName fin (ds1 ++ ds2) last w
        = recv_loop clock fullModelName fin ds2 (remembered last ds1) w'
      ∧ body w' = body w ++ relayed clock fullModelName (ticks w) ds1.
Proof.
  intros H. revert last w.
  induction H as [|d ds Hd _ IH]; intros last w.
  - exists w. simpl. by rewrite app_nil_r.
  - destruct d as [[|c cs]]; [by destruct Hd|].
    rewrite <- app_comm_cons.
    cbn [recv_loop now StreamChoices lookup list_lookup].
    edestruct IH as (w' & Hr & Hb). rewrite Hr.
    exists w'. split; [reflexivity|].
    simpl in Hb. rewrite Hb. by rewrite <- app_assoc.
Qed.

(** The loop panics exactly on a delta without choices. *)
Lemma recv_loop_panics fin ds last w :
  Exists (λ d, StreamChoices d = []) ds →
  (recv_loop clock fullModelName fin ds last w).1 = Panic index_panic.
Proof.
  intros H. revert last w.
  induction ds as [|d ds IH]; intros last w; [by inversion H|].
  destruct d as [[|c cs]]; cbn [recv_loop now StreamChoices lookup list_lookup];
    [done|].
  apply IH. by inversion H; subst.
Qed.

Lemma recv_loop_no_panic fin ds last w msg :
  Forall has_choice ds →
  (recv_loop clock fullModelName fin ds last w).1 ≠ Panic msg.
Proof.
  intros H.
  destruct (recv_loop_relays clock fullModelName fin ds last w H)
    as (w' & -> & _).
  by destruct fin.
Qed.

(** Whatever the stream, the loop leaves the headers alone, ends every
    write with a line feed, and flushes each write before it goes on. *)
Lemma recv_loop_transport fin ds last w :
  header (recv_loop clock fullModelName fin ds last w).2 = header w
  ∧ (flushed w = length (body w) →
     flushed (recv_loop clock fullModelName fin ds last w).2
     = length (body (recv_loop clock fullModelName fin ds last w).2))
  ∧ ∃ new,
      body (recv_loop clock fullModelName fin ds last w).2 = body w ++ new
      ∧ Forall (λ x, newline x = true) new.
Proof.
  revert last w. induction ds as [|d ds IH]; intros last w.
  - destruct fin as [|e]; simpl.
    + split_and!; try done. exists []. by rewrite app_nil_r.
    + split_and!; try done. eexists. split; [done|]. by constructor.
  - destruct d as [[|c cs]]; cbn [recv_loop now StreamChoices lookup list_lookup].
    + simpl. split_and!; try done. exists []. by rewrite app_nil_r.
    + edestruct IH as (Hh & Hf & new & Hb & Hnew). rewrite Hh, Hb.
      split_and!; [done| |].
      * intros _. rewrite <- Hb. by apply Hf.
      * eexists (_ :: new). simpl. rewrite <- app_assoc. split; [done|].
        by constructor.
Qed.

End LoopMore.

Lemma choices_everywhere_or_not (ds : list ChatCompletionStreamResponse) :
  Forall has_choice ds ∨ Exists (λ d, StreamChoices d = []) ds.
Proof.
  induction ds as [|d ds [IH|IH]].
  - left. constructor.
  - destruct d as [[|c cs]].
    + right. by apply Exists_cons_hd.
    + left. by constructor.
  - right. by apply Exists_cons_tl.
Qed.

Lemma remembered_last (last_seen : string)
    (ds : list ChatCompletionStreamResponse) :
  remembered last_seen ds = default last_seen (last (announced ds)).
Proof.
  revert last_seen. induction ds as [|d ds IH]; intros l; [done|].
  simpl. rewrite IH. unfold announced, finish_of. simpl.
  destruct (StreamChoices d !! 0%nat) as [c|]; simpl; [|done].
  rewrite filter_cons.
  destruct (decide (StreamFinishReason c = "")) as [E|E].
  - by rewrite decide_False by (by intros ?).
  - rewrite decide_True by done. rewrite last_cons.
    by destruct (last _).
Qed.

Lemma final_reason_announced (ds : list ChatCompletionStreamResponse) :
  final_reason ds = default "stop" (last (announced ds)).
Proof.
  unfold final_reason. rewrite remembered_last.
  destruct (last (announced ds)) as [r|] eqn:E; simpl; [|done].
  rewrite decide_False; [done|].
  apply last_Some_elem_of in E. unfold announced in E.
  by apply list_elem_of_filter in E as [? _].
Qed.

(** X8. On every path of the chat route, panics included, the provider is
    called for the alias first and then, when the alias has resolved, for
    exactly one of [Chat] and [ChatStream], chosen by the stream flag, with
    the messages of the request as they came and the resolved model name;
    nothing else is called. *)
Theorem chat_provider_calls (clock : nat → string) (s : Server)
    (request : ChatRequest) (w : World) :
  calls (chat_handler clock s (BindOk request) w).2
  = calls w ++ chat_calls s request.
Proof.
  unfold chat_handler, chat_calls.
  destruct (default true (req_Stream request)); cbn [negb].
  - destruct (GetFullModelName (provider s) (req_Model request))
      as [full|e] eqn:Hfull.
    + destruct (ChatStream (provider s) (req_Messages request) full)
        as [stream|e] eqn:Hstream.
      * rewrite (chat_stream_open _ _ _ _ _ _ Hfull Hstream). cbn zeta.
        set (w1 := opened _).
        destruct (chat_relay_writes clock full stream w1)
          as (new & _ & _ & _ & _ & Hc).
        simpl. rewrite Hc. simpl. by rewrite <- app_assoc.
      * unfold chat_stream. rewrite Hfull, Hstream. simpl.
        by rewrite <- app_assoc.
    + unfold chat_stream. by rewrite Hfull.
  - rewrite chat_once_cases.
    destruct (GetFullModelName _ _) as [full|e]; [|done].
    cbn zeta. destruct (Chat _ _ _) as [response|e];
      [|simpl; by rewrite <- app_assoc].
    destruct (Choices response); simpl; by rewrite <- app_assoc.
Qed.

(** X9. The chat route either returns or panics with an index out of range,
    and it panics exactly when the request is streamed, the alias resolves,
    the stream opens and one of its deltas has no choices. The
    non-streaming branch never panics. *)
Theorem chat_panics_only_on_delta_without_choice (clock : nat → string)
    (s : Server) (request : ChatRequest) (w : World) :
  let r := chat_handler clock s (BindOk request) w in
  (r.1 = Returned ∨ r.1 = Panicked index_panic)
  ∧ (r.1 = Panicked index_panic
     ↔ default true (req_Stream request) = true
       ∧ ∃ full stream,
           GetFullModelName (provider s) (req_Model request) = Ok full
           ∧ ChatStream (provider s) (req_Messages request) full = Ok stream
           ∧ Exists (λ d, StreamChoices d = []) (pending stream)).
Proof.
  cbn zeta. unfold chat_handler.
  destruct (default true (req_Stream request)); cbn [negb].
  - destruct (GetFullModelName (provider s) (req_Model request))
      as [full|e] eqn:Hfull.
    + destruct (ChatStream (provider s) (req_Messages request) full)
        as [stream|e] eqn:Hstream.
      * rewrite (chat_stream_open _ _ _ _ _ _ Hfull Hstream). cbn zeta.
        set (w1 := opened _). cbn [fst]. unfold chat_relay.
        set (w2 := Header_Set _ _ _).
        destruct (choices_everywhere_or_not (pending stream)) as [Hall|Hex].
        -- pose proof (recv_loop_no_panic clock full (ending stream)
                         (pending stream) "" w2) as Hno.
           destruct (recv_loop _ _ _ _ _ _) as [[l| |msg] w3]; simpl in *.
           ++ split; [by left|]. split; [done|].
              intros (_ & f & st & Hf & Hst & Hex).
              injection Hf as <-. rewrite Hstream in Hst. injection Hst as <-.
              apply Exists_exists in Hex as (d & Hd & Hnil).
              rewrite Forall_forall in Hall. by destruct (Hall d Hd).
           ++ split; [by left|]. split; [done|].
              intros (_ & f & st & Hf & Hst & Hex).
              injection Hf as <-. rewrite Hstream in Hst. injection Hst as <-.
              apply Exists_exists in Hex as (d & Hd & Hnil).
              rewrite Forall_forall in Hall. by destruct (Hall d Hd).
           ++ by destruct (Hno msg Hall).
        -- pose proof (recv_loop_panics clock full (ending stream)
                         (pending stream) "" w2 Hex) as Hp.
           destruct (recv_loop _ _ _ _ _ _) as [[l| |msg] w3]; simpl in *;
             try done.
           injection Hp as ->. split; [by right|]. split; [|done].
           intros _. split; [done|]. by exists full, stream.
      * unfold chat_stream. rewrite Hfull, Hstream. simpl.
        split; [by left|]. split; [done|].
        intros (_ & f & st & Hf & Hst & _).
        injection Hf as <-. by rewrite Hstream in Hst.
    + unfold chat_stream. rewrite Hfull. simpl.
      split; [by left|]. split; [done|]. by intros (_ & f & st & ? & _).
  - assert ((chat_once clock s request w).1 = Returned) as ->.
    { rewrite chat_once_cases.
      destruct (GetFullModelName _ _) as [full|e]; [|done].
      cbn zeta. destruct (Chat _ _ _) as [response|e]; [|done].
      by destruct (Choices response). }
    split; [by left|]. split; [done|]. by intros [? _].
Qed.

(** X10. Last write wins: when the stream ends normally, its deltas each with a
    choice, the [done:true] frame that closes the response carries the last
    finish reason a delta announced, and "stop" when none announced one. *)
Theorem chat_stream_finish_reason_is_last_announced (clock : nat → string)
    (s : Server) (request : ChatRequest) (w : World) (full : string)
    (ds : list ChatCompletionStreamResponse) :
  default true (req_Stream request) = true →
  GetFullModelName (provider s) (req_Model request) = Ok full →
  ChatStream (provider s) (req_Messages request) full
    = Ok {| pending := ds; ending := EOF |} →
  Forall has_choice ds →
  ∃ final,
    last (emitted w (chat_handler clock s (BindOk request) w).2) = Some final
    ∧ done_flag final = Some true
    ∧ finish_reason_of final = Some (default "stop" (last (announced ds))).
Proof.
  intros Hs Hfull Hstream Hds. unfold chat_handler. rewrite Hs. cbn [negb].
  rewrite (chat_stream_open _ _ _ _ _ _ Hfull Hstream). cbn zeta.
  set (w1 := opened _).
  destruct (chat_relay_eof clock full ds w1 Hds) as (w' & -> & Hb & _).
  eexists. split.
  - erewrite emitted_app by (simpl; exact Hb). apply last_snoc.
  - split; [done|]. cbn. by rewrite final_reason_announced.
Qed.

Lemma chat_stream_finish_reason_is_last_announced_witness :
  Forall has_choice (pending ex_two_reasons)
  ∧ announced (pending ex_two_reasons) = ["length"; "stop"]
  ∧ ∃ final,
      last (emitted pristine
              (chat_handler ex_clock (ex_server ex_two_reasons)
                 (BindOk (ex_request "gpt-4o-mini" None)) pristine).2)
      = Some final
      ∧ done_flag final = Some true
      ∧ finish_reason_of final = Some "stop".
Proof.
  assert (Forall has_choice (pending ex_two_reasons)) as H
    by (repeat constructor; discriminate).
  split; [exact H|]. split; [reflexivity|].
  exact (chat_stream_finish_reason_is_last_announced ex_clock
           (ex_server ex_two_reasons) (ex_request "gpt-4o-mini" None)
           pristine "openai/gpt-4o-mini" _ eq_refl eq_refl eq_refl H).
Defined.

Lemma chat_relay_starts (clock : nat → string) (full : string)
    (ds1 ds2 : list ChatCompletionStreamResponse) (fin : StreamEnd)
    (w : World) :
  Forall has_choice ds1 →
  ∃ more,
    body (chat_relay clock full {| pending := ds1 ++ ds2; ending := fin |} w).2
    = body w ++ relayed clock full (ticks w) ds1 ++ more.
Proof.
  intros Hds. unfold chat_relay. cbn [pending ending].
  set (w2 := Header_Set _ _ _).
  destruct (recv_loop_app clock full fin ds1 ds2 "" w2 Hds) as (w3 & -> & Hb3).
  destruct (recv_loop_writes clock full fin ds2 (remembered "" ds1) w3)
    as (new & Hb & _).
  destruct (recv_loop clock full fin ds2 (remembered "" ds1) w3)
    as [[l| |msg] w4]; simpl in Hb, Hb3 |- *; rewrite Hb, Hb3.
  - eexists (new ++ [_]). by rewrite <- !app_assoc.
  - exists new. by rewrite <- !app_assoc.
  - exists new. by rewrite <- !app_assoc.
Qed.

(** X11. No lookahead: the frames for the deltas received so far do not depend
    on what the stream does next. Whatever follows the deltas [ds1] in the
    stream (more deltas, a delta without choices, end of stream, an error),
    the response starts with the same [length ds1] frames, one per delta of
    [ds1], in order, with its content fragment and the reading of the clock
    at that delta. *)
Theorem chat_stream_frames_do_not_wait (clock : nat → string) (s : Server)
    (request : ChatRequest) (w : World) (full : string)
    (ds1 ds2 : list ChatCompletionStreamResponse) (fin : StreamEnd) :
  default true (req_Stream request) = true →
  GetFullModelName (provider s) (req_Model request) = Ok full →
  ChatStream (provider s) (req_Messages request) full
    = Ok {| pending := ds1 ++ ds2; ending := fin |} →
  Forall has_choice ds1 →
  let out := emitted w (chat_handler clock s (BindOk request) w).2 in
  take (length ds1) out = relayed clock full (ticks w) ds1
  ∧ content_of <$> take (length ds1) out = fragment <$> ds1
  ∧ done_flag <$> take (length ds1) out = replicate (length ds1) (Some false).
Proof.
  intros Hs Hfull Hstream Hds. cbn zeta.
  assert (take (length ds1)
            (emitted w (chat_handler clock s (BindOk request) w).2)
          = relayed clock full (ticks w) ds1) as ->.
  { unfold chat_handler. rewrite Hs. cbn [negb].
    rewrite (chat_stream_open _ _ _ _ _ _ Hfull Hstream). cbn zeta.
    set (w1 := opened _).
    destruct (chat_relay_starts clock full ds1 ds2 fin w1 Hds) as [more Hmore].
    erewrite emitted_app by (simpl; exact Hmore).
    rewrite take_app_length'; [done|by rewrite relayed_length]. }
  split_and!; [done|by apply relayed_content|apply relayed_done].
Qed.

Lemma chat_stream_frames_do_not_wait_witness :
  Forall has_choice [ex_delta "He" ""]
  ∧ content_of <$> take 1 (emitted pristine
      (chat_handler ex_clock (ex_server ex_gapped)
         (BindOk (ex_request "gpt-4o-mini" None)) pristine).2)
    = [Some "He"]
  ∧ content_of <$> take 1 (emitted pristine
      (chat_handler ex_clock (ex_server ex_broken)
         (BindOk (ex_request "gpt-4o-mini" None)) pristine).2)
    = [Some "He"].
Proof.
  assert (Forall has_choice [ex_delta "He" ""]) as H
    by (repeat constructor; discriminate).
  split; [exact H|]. split.
  - exact (proj1 (proj2 (chat_stream_frames_do_not_wait ex_clock
             (ex_server ex_gapped) (ex_request "gpt-4o-mini" None) pristine
             "openai/gpt-4o-mini" [ex_delta "He" ""]
             [ {| StreamChoices := [] |}; ex_delta "llo" "stop" ] EOF
             eq_refl eq_refl eq_refl H))).
  - exact (proj1 (proj2 (chat_stream_frames_do_not_wait ex_clock
             (ex_server ex_broken) (ex_request "gpt-4o-mini" None) pristine
             "openai/gpt-4o-mini" [ex_delta "He" ""] []
             (Failure "connection reset") eq_refl eq_refl eq_refl H))).
Defined.

Lemma stream_headers (h : gmap string string) :
  let h' := <["Connection" := "keep-alive"]>
              (<["Cache-Control" := "no-cache"]>
                 (<["Content-Type" := "application/x-ndjson"]> h)) in
  h' !! "Content-Type" = Some "application/x-ndjson"
  ∧ h' !! "Cache-Control" = Some "no-cache"
  ∧ h' !! "Connection" = Some "keep-alive".
Proof.
  cbn zeta. split_and!.
  - rewrite lookup_insert_ne by done. rewrite lookup_insert_ne by done.
    apply lookup_insert_eq.
  - rewrite lookup_insert_ne by done. apply lookup_insert_eq.
  - apply lookup_insert_eq.
Qed.

(** X12. Once the stream is open the response is a flushed line stream on every
    exit, be it the final frame, the error frame or a panic: the headers
    say newline-delimited JSON, no caching and keep-alive; every write ends
    in a line feed; and, the body having been flushed so far, no write is
    left unflushed. *)
Theorem chat_stream_transport (clock : nat → string) (s : Server)
    (request : ChatRequest) (w : World) (full : string)
    (stream : ChatCompletionStream) :
  default true (req_Stream request) = true →
  GetFullModelName (provider s) (req_Model request) = Ok full →
  ChatStream (provider s) (req_Messages request) full = Ok stream →
  let r := chat_handler clock s (BindOk request) w in
  header r.2 !! "Content-Type" = Some "application/x-ndjson"
  ∧ header r.2 !! "Cache-Control" = Some "no-cache"
  ∧ header r.2 !! "Connection" = Some "keep-alive"
  ∧ Forall (λ x, newline x = true) (emitted w r.2)
  ∧ (flushed w = length (body w) → flushed r.2 = length (body r.2)).
Proof.
  intros Hs Hfull Hstream. cbn zeta. unfold chat_handler. rewrite Hs. cbn [negb].
  rewrite (chat_stream_open _ _ _ _ _ _ Hfull Hstream). cbn zeta.
  set (w1 := opened _). unfold chat_relay.
  set (w2 := Header_Set _ _ _).
  destruct (recv_loop_transport clock full (ending stream) (pending stream) "" w2)
    as (Hh & Hf & new & Hb & Hnew).
  destruct (recv_loop clock full (ending stream) (pending stream) "" w2)
    as [[l| |msg] w3]; simpl in Hh, Hf, Hb;
    cbn [fst snd now Close Flush Fprintf_line tick body header flushed];
    rewrite ?Hh;
    destruct (stream_headers (header w)) as (H1 & H2 & H3).
  - split_and!; try done.
    erewrite emitted_app by (simpl; rewrite Hb; by rewrite <- app_assoc).
    apply Forall_app. split; [done|by constructor].
  - split_and!; try done.
    by erewrite emitted_app by (simpl; exact Hb).
  - split_and!; try done.
    by erewrite emitted_app by (simpl; exact Hb).
Qed.

Lemma chat_stream_transport_witness :
  flushed pristine = length (body pristine)
  ∧ header (chat_handler ex_clock (ex_server ex_broken)
              (BindOk (ex_request "gpt-4o-mini" None)) pristine).2
      !! "Content-Type" = Some "application/x-ndjson"
  ∧ Forall (λ x, newline x = true)
      (emitted pristine
         (chat_handler ex_clock (ex_server ex_broken)
            (BindOk (ex_request "gpt-4o-mini" None)) pristine).2)
  ∧ flushed (chat_handler ex_clock (ex_server ex_broken)
               (BindOk (ex_request "gpt-4o-mini" None)) pristine).2 = 2%nat.
Proof.
  destruct (chat_stream_transport ex_clock (ex_server ex_broken)
              (ex_request "gpt-4o-mini" None) pristine "openai/gpt-4o-mini"
              ex_broken eq_refl eq_refl eq_refl) as (Hct & _ & _ & Hnl & Hfl).
  split; [reflexivity|]. split; [exact Hct|]. split; [exact Hnl|].
  exact (Hfl eq_refl).
Defined.

(** ** The application: starting and stopping the server *)

Lemma Unlock_Lock (m : Machine) :
  locked m = false → Unlock (set_locked true m) = m.
Proof. intros H. destruct m; simpl in *. by subst. Qed.

Lemma startServer_launches (m : Machine) (key : string) :
  locked m = false →
  serverActive (app m) = false →
  keyring m = Some key →
  startServer m =
    Done (SaveConfig (enabled true (config (app m)))
            (set_app {| config := enabled true (config (app m));
                        server := Some (length (servers m));
                        serverActive := true |}
               (set_servers
                  (servers m
                   ++ [(NewServer key (LastUsedModelFilter (config (app m))),
                        Starting)]) m))).
Proof.
  intros Hl Hact Hkey. destruct m as [a l k kw sv sd tt st]. simpl in *.
  subst. unfold startServer, Lock, startServer_locked, GetAPIKey. simpl.
  by rewrite Hact.
Qed.

Lemma startServer_idle (m : Machine) :
  locked m = false →
  serverActive (app m) = true ∨ keyring m = None →
  startServer m = Done m.
Proof.
  intros Hl H. destruct m as [a l k kw sv sd tt st]. simpl in *. subst.
  unfold startServer, Lock, startServer_locked, GetAPIKey. simpl.
  destruct (serverActive a); [done|]. by destruct H as [?| ->].
Qed.

Lemma stopServer_active (m : Machine) (i : nat) (l : list (Proxy * Phase)) :
  locked m = false →
  serverActive (app m) = true →
  server (app m) = Some i →
  Stop i (servers m) = Some l →
  stopServer m =
    Done (SaveConfig (enabled false (config (app m)))
            (set_app {| config := enabled false (config (app m));
                        server := None; serverActive := false |}
               (set_servers l m))).
Proof.
  intros Hl Hact Hsrv Hstop. destruct m as [a lk k kw sv sd tt st].
  simpl in *. subst. unfold stopServer, Lock, stopServer_locked. simpl.
  by rewrite Hact, Hsrv, Hstop.
Qed.

Lemma stopServer_idle (m : Machine) :
  locked m = false →
  serverActive (app m) = false ∨ server (app m) = None →
  stopServer m = Done m.
Proof.
  intros Hl H. destruct m as [a l k kw sv sd tt st]. simpl in *. subst.
  unfold stopServer, Lock, stopServer_locked. simpl.
  destruct (serverActive a); [|done]. destruct H as [?| ->]; done.
Qed.

Lemma retagged_length i l l' : retagged i l l' → length l' = length l.
Proof. intros [->|(srv & ph & ph' & _ & ->)]; [done|apply length_insert]. Qed.

Lemma retagged_lookup_ne i j l l' :
  retagged i l l' → i ≠ j → l' !! j = l !! j.
Proof.
  intros [->|(srv & ph & ph' & _ & ->)] Hne; [done|].
  by apply list_lookup_insert_ne.
Qed.

Lemma retagged_lookup i j l l' srv ph :
  retagged i l l' → l !! j = Some (srv, ph) →
  ∃ ph', l' !! j = Some (srv, ph').
Proof.
  intros [->|(srv0 & ph0 & ph' & Hi & ->)] Hj; [by eexists|].
  destruct (decide (i = j)) as [->|Hne].
  - rewrite Hi in Hj. simplify_eq. exists ph'.
    apply list_lookup_insert_eq. by apply lookup_lt_Some in Hi.
  - exists ph. by rewrite list_lookup_insert_ne.
Qed.

Lemma retagged_configured cfg kr i l l' :
  retagged i l l' →
  Forall (configured cfg kr) l → Forall (configured cfg kr) l'.
Proof.
  intros [->|(srv & ph & ph' & Hi & ->)] H; [done|].
  apply Forall_insert; [done|].
  rewrite Forall_lookup in H. exact (H _ _ Hi).
Qed.

Lemma Stop_retagged i l l' : Stop i l = Some l' → retagged i l l'.
Proof.
  unfold Stop, retagged. intros H.
  destruct (l !! i) as [[srv [| | |]]|] eqn:E; simplify_eq; eauto 6.
Qed.

Lemma serve_retagged i l : retagged i l (serve i l).
Proof.
  unfold serve, retagged.
  destruct (l !! i) as [[srv [| | |]]|] eqn:E; eauto 6.
Qed.

Lemma bail_out_retagged i l : retagged i l (bail_out i l).
Proof.
  unfold bail_out, retagged.
  destruct (l !! i) as [[srv [| | |]]|] eqn:E; eauto 6.
Qed.

Lemma Stop_not_stopped i l ph :
  snd <$> l !! i = Some ph → ph ≠ Stopped → ∃ l', Stop i l = Some l'.
Proof.
  unfold Stop. intros H Hne.
  destruct (l !! i) as [[srv [| | |]]|]; simplify_eq/=; eauto.
Qed.

Lemma serve_phase i j l ph :
  snd <$> l !! j = Some ph → ph ≠ Stopped →
  ∃ ph', snd <$> serve i l !! j = Some ph' ∧ ph' ≠ Stopped
         ∧ (live ph = true → live ph' = true).
Proof.
  unfold serve. intros H Hne.
  destruct (l !! i) as [[srv [| | |]]|] eqn:E; eauto.
  destruct (decide (i = j)) as [->|Hij].
  - exists Serving. rewrite list_lookup_insert_eq by (by apply lookup_lt_Some in E).
    done.
  - exists ph. by rewrite list_lookup_insert_ne.
Qed.

Lemma bail_out_phase i j l ph :
  snd <$> l !! j = Some ph → ph ≠ Stopped →
  ∃ ph', snd <$> bail_out i l !! j = Some ph' ∧ ph' ≠ Stopped
         ∧ (i ≠ j → ph' = ph).
Proof.
  unfold bail_out. intros H Hne.
  destruct (l !! i) as [[srv [| | |]]|] eqn:E; eauto.
  destruct (decide (i = j)) as [->|Hij].
  - exists GaveUp. rewrite list_lookup_insert_eq by (by apply lookup_lt_Some in E).
    done.
  - exists ph. by rewrite list_lookup_insert_ne.
Qed.

Lemma startServer_in_order cfg kr m :
  in_order cfg kr m → ∃ m', startServer m = Done m' ∧ in_order cfg kr m'.
Proof.
  intros (Hl & Ha & Hs & Hp & Hk & Hsrv & Hall).
  destruct (serverActive (app m)) eqn:Eact.
  { exists m. split; [apply startServer_idle; auto|].
    unfold in_order. rewrite Eact. done. }
  destruct (keyring m) as [key|] eqn:Ekey.
  2:{ exists m. split; [apply startServer_idle; auto|].
      unfold in_order. rewrite Eact, Ekey. done. }
  eexists. split; [by apply startServer_launches|].
  unfold in_order, phase. simpl. split_and!; try done.
  - right. apply last_snoc.
  - congruence.
  - intros i [= <-]. rewrite length_app. simpl. split; [lia|]. split; [done|].
    exists Starting. rewrite lookup_app_r by lia.
    by rewrite Nat.sub_diag.
  - apply Forall_app. split; [done|]. apply Forall_singleton.
    exists key. simpl. by rewrite Hp, <- Hk.
Qed.

Lemma stopServer_in_order cfg kr m :
  in_order cfg kr m → ∃ m', stopServer m = Done m' ∧ in_order cfg kr m'.
Proof.
  intros (Hl & Ha & Hs & Hp & Hk & Hsrv & Hall).
  destruct (server (app m)) as [i|] eqn:Esrv.
  2:{ exists m. split; [apply stopServer_idle; auto|].
      unfold in_order. rewrite Esrv. done. }
  rewrite bool_decide_eq_true_2 in Ha by (by eexists).
  destruct (Hsrv i eq_refl) as (_ & _ & ph & Hph & Hne).
  destruct (Stop_not_stopped _ _ _ Hph Hne) as [l Hstop].
  eexists. split; [by eapply stopServer_active|].
  unfold in_order. simpl. split_and!; try done.
  - right. apply last_snoc.
  - eapply retagged_configured; [by apply Stop_retagged|done].
Qed.

Lemma step_in_order cfg kr o m :
  in_order cfg kr m → ∃ m', step o m = Done m' ∧ in_order cfg kr m'.
Proof.
  intros H. destruct o as [| | |j|j]; simpl.
  - by apply startServer_in_order.
  - by apply stopServer_in_order.
  - unfold onExit. destruct (stopServer_in_order _ _ _ H) as (m' & -> & H').
    eexists. split; [reflexivity|].
    destruct H' as (Hl & Ha & Hs & Hp & Hk & Hsrv & Hall).
    unfold in_order. simpl. split_and!; try done.
    right. apply last_snoc.
  - eexists. split; [reflexivity|].
    destruct H as (Hl & Ha & Hs & Hp & Hk & Hsrv & Hall).
    unfold in_order, phase. simpl. split_and!; try done.
    + intros i Hi. destruct (Hsrv i Hi) as (Hlen & Hen & ph & Hph & Hne).
      rewrite (retagged_length _ _ _ (serve_retagged j (servers m))).
      split; [done|]. split; [done|].
      destruct (serve_phase j i _ _ Hph Hne) as (ph' & ? & ? & _). eauto.
    + eapply retagged_configured; [apply serve_retagged|done].
  - eexists. split; [reflexivity|].
    destruct H as (Hl & Ha & Hs & Hp & Hk & Hsrv & Hall).
    unfold in_order, phase. simpl. split_and!; try done.
    + intros i Hi. destruct (Hsrv i Hi) as (Hlen & Hen & ph & Hph & Hne).
      rewrite (retagged_length _ _ _ (bail_out_retagged j (servers m))).
      split; [done|]. split; [done|].
      destruct (bail_out_phase j i _ _ Hph Hne) as (ph' & ? & ? & _). eauto.
    + eapply retagged_configured; [apply bail_out_retagged|done].
Qed.

Lemma steps_in_order cfg kr ops m :
  in_order cfg kr m → ∃ m', steps ops m = Done m' ∧ in_order cfg kr m'.
Proof.
  revert m. induction ops as [|o ops IH]; intros m H; simpl; [by exists m|].
  destruct (step_in_order _ _ o _ H) as (m1 & -> & H1). by apply IH.
Qed.

(** A server the application does not hold is out of its reach: no call of
    the application changes its phase. *)
Lemma startServer_keeps (m : Machine) j e :
  locked m = false →
  servers m !! j = Some e →
  ∃ m', startServer m = Done m'
        ∧ (server (app m') = server (app m)
           ∨ server (app m') = Some (length (servers m)))
        ∧ servers m' !! j = Some e.
Proof.
  intros Hl Hj.
  destruct (serverActive (app m)) eqn:Eact;
    [exists m; split; [apply startServer_idle; auto|auto]|].
  destruct (keyring m) as [key|] eqn:Ekey;
    [|exists m; split; [apply startServer_idle; auto|auto]].
  eexists. split; [by apply startServer_launches|]. simpl.
  split; [by right|]. by apply lookup_app_l_Some.
Qed.

Lemma stopServer_keeps cfg kr (m : Machine) j e :
  in_order cfg kr m →
  server (app m) ≠ Some j →
  servers m !! j = Some e →
  ∃ m', stopServer m = Done m'
        ∧ (server (app m') = server (app m) ∨ server (app m') = None)
        ∧ servers m' !! j = Some e.
Proof.
  intros (Hl & Ha & Hs & Hp & Hk & Hsrv & Hall) Hne Hj.
  destruct (server (app m)) as [i|] eqn:Esrv;
    [|exists m; split; [apply stopServer_idle; auto|auto]].
  rewrite bool_decide_eq_true_2 in Ha by (by eexists).
  destruct (Hsrv i eq_refl) as (_ & _ & ph & Hph & Hns).
  destruct (Stop_not_stopped _ _ _ Hph Hns) as [l Hstop].
  eexists. split; [by eapply stopServer_active|]. simpl.
  split; [by right|].
  rewrite (retagged_lookup_ne i j _ _ (Stop_retagged _ _ _ Hstop)); [done|].
  congruence.
Qed.

Lemma serve_live i j l srv ph :
  l !! j = Some (srv, ph) → live ph = true →
  ∃ ph', serve i l !! j = Some (srv, ph') ∧ live ph' = true.
Proof.
  intros Hj Hlive. unfold serve.
  destruct (l !! i) as [[srv0 [| | |]]|] eqn:E; eauto.
  destruct (decide (i = j)) as [->|Hij].
  - rewrite Hj in E. simplify_eq. exists Serving.
    by rewrite list_lookup_insert_eq by (by apply lookup_lt_Some in Hj).
  - exists ph. by rewrite list_lookup_insert_ne.
Qed.

Lemma step_keeps_forgotten cfg kr o m j srv ph :
  in_order cfg kr m →
  server (app m) ≠ Some j →
  servers m !! j = Some (srv, ph) →
  live ph = true →
  o ≠ OpGiveUp j →
  ∃ m' ph',
    step o m = Done m' ∧ in_order cfg kr m'
    ∧ server (app m') ≠ Some j
    ∧ servers m' !! j = Some (srv, ph') ∧ live ph' = true.
Proof.
  intros H Hne Hj Hlive Ho.
  destruct (step_in_order cfg kr o m H) as (m' & Hstep & H').
  exists m'. pose proof H as (Hl & _).
  pose proof (lookup_lt_Some _ _ _ Hj) as Hlt.
  destruct o as [| | |i|i]; simpl in Hstep.
  - destruct (startServer_keeps m j _ Hl Hj) as (m1 & E & Hs & Hk).
    rewrite E in Hstep. simplify_eq. exists ph. split_and!; try done.
    destruct Hs as [Hs|Hs]; rewrite Hs; [done|]. intros [= ?]. lia.
  - destruct (stopServer_keeps cfg kr m j _ H Hne Hj) as (m1 & E & Hs & Hk).
    rewrite E in Hstep. simplify_eq. exists ph. split_and!; try done.
    by destruct Hs as [Hs|Hs]; rewrite Hs.
  - unfold onExit in Hstep.
    destruct (stopServer_keeps cfg kr m j _ H Hne Hj) as (m1 & E & Hs & Hk).
    rewrite E in Hstep. simplify_eq. exists ph.
    split; [cbn [step]; unfold onExit; by rewrite E|].
    split; [done|]. cbn [app servers SaveConfig]. split; [|done].
    by destruct Hs as [Hs|Hs]; rewrite Hs.
  - simplify_eq. simpl.
    destruct (serve_live i j _ _ _ Hj Hlive) as (ph' & ? & ?).
    exists ph'. split_and!; done.
  - simplify_eq. simpl. exists ph. split_and!; try done.
    rewrite (retagged_lookup_ne i j _ _ (bail_out_retagged i (servers m)));
      [done|congruence].
Qed.

Lemma steps_keep_forgotten cfg kr ops m j srv ph :
  in_order cfg kr m →
  server (app m) ≠ Some j →
  servers m !! j = Some (srv, ph) →
  live ph = true →
  holds_on j ops →
  ∃ m' ph',
    steps ops m = Done m' ∧ in_order cfg kr m'
    ∧ servers m' !! j = Some (srv, ph') ∧ live ph' = true.
Proof.
  revert m ph. induction ops as [|o ops IH]; intros m ph H Hne Hj Hlive Hops;
    simpl; [by exists m, ph|].
  unfold holds_on in Hops. rewrite not_elem_of_cons in Hops.
  destruct Hops as [Ho Hops].
  destruct (step_keeps_forgotten cfg kr o m j srv ph H Hne Hj Hlive)
    as (m1 & ph1 & -> & H1 & Hne1 & Hj1 & Hlive1); [congruence|].
  by apply (IH m1 ph1).
Qed.

Lemma running_lookup (m : Machine) j srv ph :
  servers m !! j = Some (srv, ph) → live ph = true → srv ∈ running m.
Proof.
  intros Hj Hlive. unfold running. apply list_elem_of_omap.
  exists (srv, ph). split; [by eapply list_elem_of_lookup_2|].
  simpl. by rewrite Hlive.
Qed.

Lemma NewApp_in_order cfg kr kw : in_order cfg kr (NewApp cfg kr kw).
Proof. unfold in_order. simpl. split_and!; try done. by left. Qed.

(** X13. Whatever calls of [startServer], [stopServer] and [onExit] the
    application makes one after the other, and however the [Start]
    goroutines of the servers it launched advance in between, no call
    blocks or panics, and afterwards: the mutex is free; [serverActive] is
    set exactly when the application holds a server; the server it holds
    is the one launched last, and the configuration then says that the
    server is enabled; every server launched was created with the stored
    API key and the configured filter path; and the last configuration
    handed to [SaveConfig], if any, is the current one. *)
Theorem app_stays_in_order (cfg : Config) (kr : option string) (kw : bool)
    (ops : list Op) :
  ∃ m,
    steps ops (NewApp cfg kr kw) = Done m
    ∧ locked m = false
    ∧ serverActive (app m) = bool_decide (is_Some (server (app m)))
    ∧ (∀ i, server (app m) = Some i →
            S i = length (servers m)
            ∧ ServerEnabled (config (app m)) = true)
    ∧ Forall (λ e, ∃ key, kr = Some key
                          ∧ e.1 = NewServer key (LastUsedModelFilter cfg))
        (servers m)
    ∧ (saved m = [] ∨ last (saved m) = Some (config (app m))).
Proof.
  destruct (steps_in_order cfg kr ops (NewApp cfg kr kw)
              (NewApp_in_order cfg kr kw))
    as (m & Hm & Hl & Ha & Hs & _ & _ & Hsrv & Hall).
  exists m. split_and!; try done.
  intros i Hi. destruct (Hsrv i Hi) as (? & ? & _). done.
Qed.

(** X14. Starting and then stopping, with an API key stored and no server
    active. [startServer] launches a server with that key and the
    configured filter path. If [Start] of that server has set up its
    [http.Server] by the time [stopServer] is called, the server is
    stopped. If [stopServer] comes before that, [Stop] does nothing: the
    application forgets the server and records it as stopped, yet its
    [Start] goes on, and whatever the application calls afterwards, that
    server keeps running unless its filter file cannot be loaded; a
    second [startServer] puts a second server next to it. *)
Theorem stopServer_stops_only_a_serving_server (cfg : Config) (key : string)
    (m : Machine) :
  in_order cfg (Some key) m →
  serverActive (app m) = false →
  let srv := NewServer key (LastUsedModelFilter cfg) in
  let i := length (servers m) in
  let on := enabled true (config (app m)) in
  let off := enabled false (config (app m)) in
  (∃ m2,
     steps [OpStart; OpServe i; OpStop] m = Done m2
     ∧ app m2 = {| config := off; server := None; serverActive := false |}
     ∧ servers m2 = servers m ++ [(srv, Stopped)]
     ∧ running m2 = running m
     ∧ saved m2 = saved m ++ [on; off])
  ∧ (∃ m2,
       steps [OpStart; OpStop] m = Done m2
       ∧ app m2 = {| config := off; server := None; serverActive := false |}
       ∧ servers m2 = servers m ++ [(srv, Starting)]
       ∧ running m2 = running m ++ [srv]
       ∧ saved m2 = saved m ++ [on; off]
       ∧ (∀ ops, holds_on i ops →
            ∃ m3, steps ops m2 = Done m3 ∧ srv ∈ running m3)
       ∧ (∃ m3, steps [OpStart] m2 = Done m3
                ∧ running m3 = running m ++ [srv; srv])).
Proof.
  intros H Hact srv i on off.
  pose proof H as (Hl & Ha & Hs & Hp & Hk & Hsrv & Hall).
  assert (server (app m) = None) as Hnone.
  { destruct (server (app m)); [|done].
    by rewrite Hact, bool_decide_eq_true_2 in Ha by (by eexists). }
  assert (NewServer key (LastUsedModelFilter (config (app m))) = srv) as Esrv
    by (unfold srv; by rewrite Hp).
  pose proof (startServer_launches m key Hl Hact Hk) as Hstart.
  rewrite Esrv in Hstart. fold i on in Hstart.
  split.
  - eexists. split.
    { cbn [steps step]. rewrite Hstart. cbn [servers set_servers set_app SaveConfig].
      unfold serve. rewrite lookup_app_r by (unfold i; lia).
      replace (i - length (servers m))%nat with 0%nat by (unfold i; lia).
      cbn [lookup list_lookup].
      erewrite stopServer_active; [reflexivity|done|done|reflexivity|].
      cbn [servers set_servers set_app SaveConfig]. unfold Stop.
      rewrite list_lookup_insert_eq by (rewrite length_app; simpl; unfold i; lia).
      reflexivity. }
    cbn [app servers saved set_servers set_app SaveConfig config].
    assert (<[i:=(srv, Stopped)]> (<[i:=(srv, Serving)]>
              (servers m ++ [(srv, Starting)]))
            = servers m ++ [(srv, Stopped)]) as El.
    { rewrite list_insert_insert_eq. unfold i.
      rewrite insert_app_r_alt by lia. by rewrite Nat.sub_diag. }
    split_and!.
    + done.
    + exact El.
    + unfold running. rewrite El.
      cbn [servers set_servers set_app SaveConfig]. rewrite omap_app. simpl.
      by rewrite app_nil_r.
    + by rewrite <- app_assoc.
  - assert (stopServer
              (SaveConfig on
                 (set_app {| config := on; server := Some i;
                             serverActive := true |}
                    (set_servers (servers m ++ [(srv, Starting)]) m)))
            = Done (SaveConfig off
                      (set_app {| config := off; server := None;
                                  serverActive := false |}
                         (set_servers (servers m ++ [(srv, Starting)])
                            (SaveConfig on
                               (set_app {| config := on; server := Some i;
                                           serverActive := true |}
                                  (set_servers
                                     (servers m ++ [(srv, Starting)]) m)))))))
      as Hstop.
    { erewrite stopServer_active; [reflexivity|done|done|reflexivity|].
      cbn [servers set_servers set_app SaveConfig]. unfold Stop.
      rewrite lookup_app_r by (unfold i; lia).
      replace (i - length (servers m))%nat with 0%nat by (unfold i; lia).
      reflexivity. }
    eexists. split.
    { cbn [steps step]. rewrite Hstart, Hstop. reflexivity. }
    set (m2 := SaveConfig off _).
    assert (in_order cfg (Some key) m2) as H2.
    { destruct (steps_in_order cfg (Some key) [OpStart; OpStop] m H)
        as (m' & E & H'). cbn [steps step] in E.
      rewrite Hstart, Hstop in E. by simplify_eq. }
    assert (servers m2 !! i = Some (srv, Starting)) as Hi.
    { unfold m2. cbn [servers set_servers set_app SaveConfig].
      rewrite lookup_app_r by (unfold i; lia).
      by replace (i - length (servers m))%nat with 0%nat by (unfold i; lia). }
    split_and!.
    + done.
    + done.
    + unfold running, m2. cbn [servers set_servers set_app SaveConfig].
      by rewrite omap_app.
    + unfold m2. cbn [saved set_servers set_app SaveConfig].
      by rewrite <- app_assoc.
    + intros ops Hops.
      destruct (steps_keep_forgotten cfg (Some key) ops m2 i srv Starting)
        as (m3 & ph & E & _ & Hj & Hlive); try done.
      exists m3. split; [done|]. by eapply running_lookup.
    + eexists. split.
      { cbn [steps step]. rewrite (startServer_launches m2 key); done. }
      unfold running, m2.
      cbn [servers set_servers set_app SaveConfig app config].
      rewrite !omap_app. simpl.
      assert (NewServer key (LastUsedModelFilter (config (app m))) = srv) as ->
        by done.
      by rewrite <- app_assoc.
Qed.

Lemma stopServer_stops_only_a_serving_server_witness :
  in_order DefaultConfig (Some "sk-or-v1")
    (NewApp DefaultConfig (Some "sk-or-v1") true)
  ∧ (∃ m2,
       steps [OpStart; OpServe 0; OpStop]
         (NewApp DefaultConfig (Some "sk-or-v1") true) = Done m2
       ∧ running m2 = [])
  ∧ (∃ m2,
       steps [OpStart; OpStop]
         (NewApp DefaultConfig (Some "sk-or-v1") true) = Done m2
       ∧ serverActive (app m2) = false
       ∧ running m2 = [NewServer "sk-or-v1" "models-filter"]).
Proof.
  pose proof (NewApp_in_order DefaultConfig (Some "sk-or-v1") true) as H.
  split; [exact H|].
  destruct (stopServer_stops_only_a_serving_server DefaultConfig "sk-or-v1"
              (NewApp DefaultConfig (Some "sk-or-v1") true) H eq_refl)
    as ((m2 & E2 & _ & _ & R2 & _) & (m2' & E2' & A2' & _ & R2' & _)).
  split.
  - exists m2. split; [exact E2|exact R2].
  - exists m2'. split; [exact E2'|]. split; [by rewrite A2'|exact R2'].
Defined.


(** X15. A click on the toggle menu item never starts or stops the server. The
    handler takes [serverMutex] and, still holding it, calls [stopServer]
    or [startServer], which take the same mutex: it blocks there for good,
    with the server, the application state and the menu titles as they
    were. It returns only when there is no API key to start a server with,
    and then it has changed nothing either. *)
Theorem onToggle_never_toggles (typed : string) (m : Machine) :
  locked m = false →
  (∃ m', (onToggle typed m = Blocked m' ∨ onToggle typed m = Done m')
         ∧ app m' = app m
         ∧ running m' = running m
         ∧ saved m' = saved m
         ∧ toggleTitle m' = toggleTitle m
         ∧ statusTitle m' = statusTitle m)
  ∧ ((∃ m', onToggle typed m = Blocked m')
     ↔ serverActive (app m) = true
       ∨ keyring m ≠ None
       ∨ (typed ≠ "" ∧ keyringWritable m = true)).
Proof.
  intros Hl. unfold onToggle, Lock. rewrite Hl. cbn [app set_locked].
  destruct (serverActive (app m)) eqn:Eact.
  - unfold stopServer, Lock. cbn [locked set_locked].
    split; [|split; [intros _; by left|intros _; by eexists]].
    eexists. split; [by left|]. done.
  - unfold HasAPIKey, GetAPIKey, showAPIKeyDialog, SetAPIKey, startServer, Lock.
    cbn [keyring keyringWritable locked set_locked].
    destruct (keyring m) as [key|] eqn:Ekey; cbn [negb].
    + cbn [keyring locked set_locked].
      rewrite Ekey.
      split; [|split; [intros _; right; by left|intros _; by eexists]].
      eexists. split; [by left|]. done.
    + destruct (decide (typed = "")) as [->|Hne].
      * cbn [keyring locked set_locked]. rewrite Ekey.
        split.
        -- eexists. split; [by right|]. done.
        -- split; [by intros [? ?]|]. intros [?|[?|[? _]]]; done.
      * destruct (keyringWritable m) eqn:Ekw.
        -- cbn [keyring locked set_locked set_keyring].
           split; [|split; [intros _; right; right; by split
                           |intros _; by eexists]].
           eexists. split; [by left|]. done.
        -- cbn [keyring locked set_locked]. rewrite Ekey.
           split.
           ++ eexists. split; [by right|]. done.
           ++ split; [by intros [? ?]|]. intros [?|[?|[_ ?]]]; done.
Qed.

Lemma onToggle_never_toggles_witness :
  locked (NewApp DefaultConfig (Some "sk-or-v1") true) = false
  ∧ ∃ m', onToggle "" (NewApp DefaultConfig (Some "sk-or-v1") true) = Blocked m'.
Proof.
  split; [reflexivity|].
  apply (onToggle_never_toggles "" (NewApp DefaultConfig (Some "sk-or-v1") true)
           eq_refl).
  right. left. discriminate.
Defined.
